(** * Result decoding of MySQL Connector/C++: a shallow embedding

    The development follows the two source files

    - [common/result.h]: column meta-data ([Format_info], [Column_info],
      [Meta_data]), raw row data ([Buffer], [Row_data]), value conversion
      ([convert], [Value::Access::mk]), typed rows ([Row_impl]) and the
      inline part of [Result_impl_base];
    - [connector/result.cc]: the older [Result::Impl] which stores all rows
      and prints fields as strings.

    C++ exceptions are values of [exn] carried by [result]; member functions
    that mutate their object take the object and return the new one.
    [std::map] is stdpp's [gmap]; unsigned integers are [N] with the
    wrap-around written where the source does arithmetic on them. *)

From Stdlib Require Import NArith ZArith Lia List Ascii String.
From Stdlib Require Import Strings.Byte.
From stdpp Require Import base option list gmap fin_maps strings pretty.

Open Scope N_scope.

(** ** Exceptions *)

Inductive exn : Type :=
| std_out_of_range (what : string)   (* std::out_of_range *)
| Error (descr : string)             (* THROW(descr) *)
| thrown_literal (msg : string)      (* throw "..." of a string literal *)
| assertion_failed (what : string)   (* a failed assert aborts *)
| variant_bad_access                 (* variant::get<T> on another alternative *)
| undefined_behaviour (what : string)
| external_error (what : string)     (* raised inside CDK *)
| locale_dependent (what : string).  (* no exception: text the locale decides *)

Inductive result (A : Type) : Type :=
| Ok (a : A)
| Throw (e : exn).

Arguments Ok {A} a.
Arguments Throw {A} e.

#[global] Instance result_ret : MRet result := λ A a, Ok a.
#[global] Instance result_bind : MBind result := λ A B f m,
  match m with
  | Ok a => f a
  | Throw e => Throw e
  end.

Definition is_Ok {A} (r : result A) : Prop := ∃ a, r = Ok a.

(** [std::map::at]: the libstdc++ message is "map::at". *)
Definition map_at {V} (m : gmap N V) (k : N) : result V :=
  match m !! k with
  | Some v => Ok v
  | None => Throw (std_out_of_range "map::at")
  end.

(** [std::map::emplace] and [std::map::insert] keep an existing entry. *)
Definition map_emplace {V} (k : N) (v : V) (m : gmap N V) : gmap N V :=
  match m !! k with
  | Some _ => m
  | None => <[k := v]> m
  end.

(** [m[k]]: default-constructs a missing entry. *)
Definition map_index {V} (dflt : V) (k : N) (m : gmap N V) : V * gmap N V :=
  match m !! k with
  | Some v => (v, m)
  | None => (dflt, <[k := dflt]> m)
  end.

(** ** Bytes and buffers *)

Abbreviation bytes := (list byte).

(** Widths of the unsigned types the source computes with. *)
Definition size_t_max : N := 2 ^ 64.
Definition unsigned_long_max : N := 2 ^ 64.
Definition unsigned_short_max : N := 2 ^ 16.
Definition unsigned_max : N := 2 ^ 32.
Definition col_count_t_max : N := 2 ^ 32.
Definition row_count_t_max : N := 2 ^ 64.

Definition bytes_size (b : bytes) : N := N.of_nat (length b).

(** Unsigned subtraction [a - b] at width [2^w]. *)
Definition wrap_sub (modulus a b : N) : N :=
  Z.to_N ((Z.of_N a - Z.of_N b) mod Z.of_N modulus).

(** Reading [len] bytes starting at [data.begin()]: defined only inside the
    buffer. *)
Definition bytes_prefix (data : bytes) (len : N) : result bytes :=
  if decide (len ≤ bytes_size data)
  then Ok (take (N.to_nat len) data)
  else Throw (undefined_behaviour "read past the end of the buffer").

(** The range [[data.begin(), data.end()-1)]. *)
Definition bytes_but_last (data : bytes) : result bytes :=
  match data with
  | [] => Throw (undefined_behaviour "end()-1 of an empty range")
  | _ => Ok (removelast data)
  end.

(** [class Buffer]: a wrapper of [std::vector<byte>]. *)
Module Buffer.
Record t := mk { m_impl : bytes }.
Definition empty : t := mk [].
Definition append (data : bytes) (b : t) : t := mk (m_impl b ++ data).
Definition size (b : t) : N := bytes_size (m_impl b).
Definition data (b : t) : bytes := m_impl b.
End Buffer.

(** [typedef std::map<col_count_t, Buffer> Row_data]. *)
Abbreviation Row_data := (gmap N Buffer.t).

(** ** Values *)

(** Modelled from the spec: class [Value] (value.h is not part of these
    sources).  A value has a type tag, of which the sources name [VNULL],
    [RAW] and [STRING]; the raw representation [m_str]; and a native
    payload.  [Value()] is the NULL value and [Value(ptr, len)] is the
    raw-bytes value holding a copy of [len] bytes read from [ptr]. *)
Module Value.
Inductive type : Type := VNULL | RAW | STRING | native (tag : N).
Record t := mk { get_type : type; m_str : bytes; m_val : Z }.
Definition null : t := mk VNULL [] 0%Z.
Definition raw (ptr : bytes) (len : N) : result t :=
  b ← bytes_prefix ptr len; Ok (mk RAW b 0%Z).
End Value.

(** ** What CDK provides *)

(** Modelled from the spec: [cdk::Type_info] is declared in CDK, outside
    these sources.  The wire type tag is one of string, integer, float,
    document, bytes, datetime, geometry, xml, or an unrecognised code; the
    sources name the eight constants [TYPE_...] and pass any other value
    to [add_raw]. *)
Inductive Type_info : Type :=
| TYPE_INTEGER | TYPE_FLOAT | TYPE_STRING | TYPE_DATETIME
| TYPE_BYTES | TYPE_DOCUMENT | TYPE_GEOMETRY | TYPE_XML
| TYPE_other (code : N).

#[global] Instance Type_info_eq_dec : EqDecision Type_info.
Proof. solve_decision. Defined.

(** Modelled from the spec: the macro [CDK_TYPE_LIST(X)] is defined in CDK;
    it expands [X] once per recognised type.  [convert_at] applies it to a
    case that calls [fi.get<TYPE_X>()], so each of its types is one of the
    eight alternatives of [Format_info_storage]. *)
Definition CDK_TYPE_LIST : list Type_info :=
  [TYPE_INTEGER; TYPE_FLOAT; TYPE_STRING; TYPE_DATETIME;
   TYPE_BYTES; TYPE_DOCUMENT; TYPE_GEOMETRY; TYPE_XML].

(** The pieces of CDK and of the codec-specific [convert] overloads
    (declared in result.h, defined elsewhere) that the code below calls:
    they are parameters of the development.  [NDEBUG] tells whether
    [assert] is compiled out. *)
Class CDK : Type := {
  Format_info_cdk : Type;                      (* cdk::Format_info *)
  pad_width : Format_info_cdk → N;             (* Format<TYPE_BYTES>::pad_width *)
  convert_STRING : bytes → Format_info_cdk → result Value.t;
  convert_INTEGER : bytes → Format_info_cdk → result Value.t;
  convert_FLOAT : bytes → Format_info_cdk → result Value.t;
  convert_DOCUMENT : bytes → Format_info_cdk → result Value.t;
  NDEBUG : bool
}.

(** [assert(cond)]; [ASSERT_NUM_LIMITS] of global.h is an [assert] too. *)
Definition assert `{CDK} (cond : bool) (what : string) : result unit :=
  if cond || NDEBUG then Ok () else Throw (assertion_failed what).

(** Modelled from the spec: the column-info object of CDK: original and
    display name, owning table and schema, length, decimals, collation. *)
Record Schema_ref_cdk := { schema_name : string }.
Record Table_ref_cdk := {
  table_orig_name : string;
  table_name : string;
  table_schema : option Schema_ref_cdk
}.
Record Column_info_cdk := {
  ci_orig_name : string;
  ci_name : string;
  ci_table : option Table_ref_cdk;
  ci_collation : N;
  ci_length : N;
  ci_decimals : N
}.

(** ** Format_info *)

Module Format_info.
Section defs.
Context `{cdk : CDK}.

(** The variant [Format_info_storage]: one [Format_descr<T>] per type.  A
    descriptor keeps the format (and codec) built from the
    [cdk::Format_info]; those of GEOMETRY and XML keep nothing. *)
Inductive Format_info_storage : Type :=
| Format_descr_STRING (fi : Format_info_cdk)
| Format_descr_INTEGER (fi : Format_info_cdk)
| Format_descr_FLOAT (fi : Format_info_cdk)
| Format_descr_DOCUMENT (fi : Format_info_cdk)
| Format_descr_BYTES (fi : Format_info_cdk)
| Format_descr_DATETIME (fi : Format_info_cdk)
| Format_descr_GEOMETRY
| Format_descr_XML.

(** The [T] of the stored [Format_descr<T>]. *)
Definition descr_type (fd : Format_info_storage) : Type_info :=
  match fd with
  | Format_descr_STRING _ => TYPE_STRING
  | Format_descr_INTEGER _ => TYPE_INTEGER
  | Format_descr_FLOAT _ => TYPE_FLOAT
  | Format_descr_DOCUMENT _ => TYPE_DOCUMENT
  | Format_descr_BYTES _ => TYPE_BYTES
  | Format_descr_DATETIME _ => TYPE_DATETIME
  | Format_descr_GEOMETRY => TYPE_GEOMETRY
  | Format_descr_XML => TYPE_XML
  end.

Record t := mk { m_type : Type_info; m_fmt : Format_info_storage }.

(** [template <T> Format_info(const Format_descr<T>&)]. *)
Definition of_descr (fd : Format_info_storage) : t := mk (descr_type fd) fd.

(** [Format_info(type, const Format_descr<TYPE_BYTES>&)]. *)
Definition of_raw (type : Type_info) (fi : Format_info_cdk) : t :=
  mk type (Format_descr_BYTES fi).

(** [get<T>()]: the variant fails on another alternative. *)
Definition get (T : Type_info) (f : t) : result Format_info_storage :=
  if decide (descr_type (m_fmt f) = T) then Ok (m_fmt f)
  else Throw variant_bad_access.

(** The formats the two constructors can build; [of_raw TYPE_BYTES] is
    [of_descr] of a BYTES descriptor, and [Meta_data] never calls [of_raw]
    with one of the seven types it lists. *)
Definition built (f : t) : Prop :=
  (∃ fd, f = of_descr fd) ∨ (∃ code fi, f = of_raw (TYPE_other code) fi).

End defs.
End Format_info.

(** The wire types with a value codec: those with a type-specific
    [convert] overload. *)
Definition has_codec (T : Type_info) : bool :=
  match T with
  | TYPE_STRING | TYPE_INTEGER | TYPE_FLOAT | TYPE_DOCUMENT => true
  | _ => false
  end.

(** ** Column_info *)

Module Column_info.
Section defs.
Context `{cdk : CDK}.

(** [class Column_info : public Format_info]: [base] is the inherited part. *)
Record t := mk {
  base : Format_info.t;
  m_name : string;
  m_label : string;
  m_table_name : string;
  m_table_label : string;
  m_schema_name : string;
  m_length : N;          (* unsigned long *)
  m_decimals : N;        (* unsigned short *)
  m_collation : N;
  m_padded : bool
}.

Definition m_type (c : t) : Type_info := Format_info.m_type (base c).

(** A column before [store_info]: empty strings, [m_padded = false]; the
    numeric members are written by [store_info] before any read. *)
Definition fresh (f : Format_info.t) : t :=
  mk f "" "" "" "" "" 0 0 0 false.

(** [template <T> Column_info(const Format_descr<T>&)]. *)
Definition of_descr (fd : Format_info.Format_info_storage) : t :=
  fresh (Format_info.of_descr fd).

(** [Column_info(type, const cdk::Format_info&)]: values kept as raw bytes. *)
Definition of_raw (type : Type_info) (fi : Format_info_cdk) : t :=
  fresh (Format_info.of_raw type fi).

(** The [TYPE_BYTES] block of [store_info]: the new [m_padded]. *)
Definition store_padded (c : t) (length : N) : result bool :=
  if decide (TYPE_BYTES = m_type c) then
    fd ← Format_info.get TYPE_BYTES (base c);
    match fd with
    | Format_info.Format_descr_BYTES fi =>
        let pad_width := pad_width fi in
        if decide (0 < pad_width) then
          _ ← assert (length =? pad_width) "m_length == pad_width";
          Ok true
        else Ok (m_padded c)
    | _ => Throw variant_bad_access
    end
  else Ok (m_padded c).

Definition store_info (ci : Column_info_cdk) (c : t) : result t :=
  let name' := ci_orig_name ci in
  let label' := ci_name ci in
  let table_name' :=
    match ci_table ci with
    | Some tbl => table_orig_name tbl
    | None => m_table_name c
    end in
  let table_label' :=
    match ci_table ci with
    | Some tbl => table_name tbl
    | None => m_table_label c
    end in
  let schema_name' :=
    match ci_table ci with
    | Some tbl =>
        match table_schema tbl with
        | Some s => schema_name s
        | None => m_schema_name c
        end
    | None => m_schema_name c
    end in
  let collation' := ci_collation ci in
  let length' := ci_length ci mod unsigned_long_max in
  _ ← assert (ci_decimals ci <? unsigned_short_max)
        "ASSERT_NUM_LIMITS(short unsigned, ci.decimals())";
  let decimals' := ci_decimals ci mod unsigned_short_max in
  padded' ← store_padded c length';
  Ok (mk (base c) name' label' table_name' table_label' schema_name'
         length' decimals' collation' padded').

End defs.
End Column_info.

(** ** Meta_data *)

Module Meta_data.
Section defs.
Context `{cdk : CDK}.

(** The [cdk::Meta_data] interface, implemented by the cursor. *)
Record Meta_data_cdk := {
  cdk_col_count : N;
  cdk_type : N → Type_info;
  cdk_format : N → Format_info_cdk;
  cdk_col_info : N → Column_info_cdk
}.

Record t := mk {
  m_col_count : N;
  m_cols : gmap N Column_info.t
}.

Definition col_count (m : t) : N := m_col_count m.

Definition get_column (m : t) (pos : N) : result Column_info.t :=
  map_at (m_cols m) pos.

Definition get_format (m : t) (pos : N) : result Format_info.t :=
  c ← map_at (m_cols m) pos; Ok (Column_info.base c).

Definition get_type (m : t) (pos : N) : result Type_info :=
  f ← get_format m pos; Ok (Format_info.m_type f).

(** [emplace] the new column, then [m_cols.at(pos).store_info(ci)]. *)
Definition add_stored (pos : N) (ci : Column_info_cdk) (c0 : Column_info.t)
    (m : t) : result t :=
  let cols := map_emplace pos c0 (m_cols m) in
  c ← map_at cols pos;
  c' ← Column_info.store_info ci c;
  Ok (mk (m_col_count m) (<[pos := c']> cols)).

(** [add<T>(pos, ci, fi)]; the descriptor is [Format_descr<T>(fi)]. *)
Definition add (fd : Format_info.Format_info_storage) (pos : N)
    (ci : Column_info_cdk) (m : t) : result t :=
  add_stored pos ci (Column_info.of_descr fd) m.

Definition add_raw (pos : N) (ci : Column_info_cdk) (type : Type_info)
    (fi : Format_info_cdk) (m : t) : result t :=
  add_stored pos ci (Column_info.of_raw type fi) m.

(** The body of the constructor's loop. *)
Definition add_column (md : Meta_data_cdk) (pos : N) (m : t) : result t :=
  let ti := cdk_type md pos in
  let fi := cdk_format md pos in
  let ci := cdk_col_info md pos in
  match ti with
  | TYPE_STRING => add (Format_info.Format_descr_STRING fi) pos ci m
  | TYPE_INTEGER => add (Format_info.Format_descr_INTEGER fi) pos ci m
  | TYPE_FLOAT => add (Format_info.Format_descr_FLOAT fi) pos ci m
  | TYPE_DOCUMENT => add (Format_info.Format_descr_DOCUMENT fi) pos ci m
  | TYPE_DATETIME => add (Format_info.Format_descr_DATETIME fi) pos ci m
  | TYPE_GEOMETRY => add Format_info.Format_descr_GEOMETRY pos ci m
  | TYPE_XML => add Format_info.Format_descr_XML pos ci m
  | _ => add_raw pos ci ti fi m
  end.

(** Positions [0 .. n-1], in the order of the loop. *)
Definition positions (n : N) : list N := N.of_nat <$> seq 0 (N.to_nat n).

Fixpoint add_columns (md : Meta_data_cdk) (ps : list N) (m : t) : result t :=
  match ps with
  | [] => Ok m
  | pos :: ps => m' ← add_column md pos m; add_columns md ps m'
  end.

(** The constructor [Meta_data(cdk::Meta_data&)]. *)
Definition Meta_data (md : Meta_data_cdk) : result t :=
  add_columns md (positions (cdk_col_count md)) (mk (cdk_col_count md) ∅).

(** The column stored for position [j] agrees with what the cursor reports
    there, and is padded exactly for BYTES with a positive pad width. *)
Definition column_ok (md : Meta_data_cdk) (j : N) (c : Column_info.t) : Prop :=
  Format_info.built (Column_info.base c) ∧
  Column_info.m_type c = cdk_type md j ∧
  (Column_info.m_padded c = true ↔
   cdk_type md j = TYPE_BYTES ∧ 0 < pad_width (cdk_format md j)).

(** Every stored column has a format one of the constructors builds. *)
Definition columns_built (m : t) : Prop :=
  ∀ j c, m_cols m !! j = Some c → Format_info.built (Column_info.base c).

End defs.
End Meta_data.

(** ** Value conversion *)

Section conversion.
Context `{cdk : CDK}.

(** The generic template [convert<T>]: the value holds the raw bytes
    [data.begin() .. data.begin() + (data.size()-1)]; the subtraction is
    done in [size_t]. *)
Definition convert_generic (data : bytes) : result Value.t :=
  Value.raw data (wrap_sub size_t_max (bytes_size data) 1).

(** Overload resolution of [convert(data, Format_descr<T>&)]: the four
    codec-specific overloads, otherwise the generic template. *)
Definition convert (data : bytes) (fd : Format_info.Format_info_storage)
    : result Value.t :=
  match fd with
  | Format_info.Format_descr_STRING fi => convert_STRING data fi
  | Format_info.Format_descr_INTEGER fi => convert_INTEGER data fi
  | Format_info.Format_descr_FLOAT fi => convert_FLOAT data fi
  | Format_info.Format_descr_DOCUMENT fi => convert_DOCUMENT data fi
  | _ => convert_generic data
  end.

(** [Value::Access::mk]: convert, then keep the raw representation in
    [m_str] unless the value is RAW, STRING or VNULL. *)
Definition Value_Access_mk (data : bytes)
    (format : Format_info.Format_info_storage) : result Value.t :=
  val ← convert data format;
  match Value.get_type val with
  | Value.RAW | Value.STRING | Value.VNULL => Ok val
  | _ =>
      s ← bytes_but_last data;
      Ok (Value.mk (Value.get_type val) s (Value.m_val val))
  end.

(** What [Row_impl<VAL>] asks of its parameter [VAL]: a default constructor
    (the NULL value) and the static [VAL::Access::mk]. *)
Class Access (VAL : Type) : Type := {
  VAL_null : VAL;
  Access_mk : bytes → Format_info.Format_info_storage → result VAL
}.

#[global] Instance Value_Access : Access Value.t := {
  VAL_null := Value.null;
  Access_mk := Value_Access_mk
}.


End conversion.

(** ** Row_impl *)

Module Row_impl.
Section defs.
Context `{cdk : CDK} {VAL : Type} `{!Access VAL}.

(** The members of [Row_impl<VAL>].  [mk_calls] is ghost state: the
    positions for which [VAL::Access::mk] has been called, latest first. *)
Record t := mk {
  m_data : Row_data;
  m_mdata : option Meta_data.t;        (* shared_ptr, possibly null *)
  m_vals : gmap N VAL;
  m_col_count : N;
  mk_calls : list N
}.

(** [Row_impl()]. *)
Definition empty : t := mk ∅ None ∅ 0 [].

(** [Row_impl(data, md)]: the row data is copied. *)
Definition Row_impl (data : Row_data) (md : option Meta_data.t) : t :=
  mk data md ∅ 0 [].

Definition clear (r : t) : t := mk ∅ None ∅ (m_col_count r) (mk_calls r).

Definition col_count (r : t) : N :=
  match m_mdata r with
  | Some md => Meta_data.col_count md
  | None => m_col_count r
  end.

(** [m_mdata && pos >= m_mdata->col_count()]. *)
Definition beyond_mdata (r : t) (pos : N) : bool :=
  match m_mdata r with
  | Some md => bool_decide (Meta_data.col_count md ≤ pos)
  | None => false
  end.

Definition get_bytes (r : t) (pos : N) : result bytes :=
  if beyond_mdata r pos then Throw (std_out_of_range "row column")
  else
    match m_data r !! pos with
    | Some b => Ok (Buffer.data b)
    | None => Ok []               (* empty bytes indicate null value *)
    end.

Definition emplace_val (pos : N) (v : VAL) (r : t) : t :=
  mk (m_data r) (m_mdata r) (map_emplace pos v (m_vals r)) (m_col_count r)
     (mk_calls r).

Definition log_mk (pos : N) (r : t) : t :=
  mk (m_data r) (m_mdata r) (m_vals r) (m_col_count r) (pos :: mk_calls r).

(** The test [!raw || 0 == raw->size()] of [convert_at]: the field at [pos]
    is NULL. *)
Definition is_null_field (r : t) (pos : N) : Prop :=
  match m_data r !! pos with
  | Some raw => 0 = Buffer.size raw
  | None => True
  end.

(** [convert_at]: a missing or empty buffer is the NULL value; otherwise
    the switch has one case per type of [CDK_TYPE_LIST] and no default. *)
Definition convert_at (pos : N) (fi : Format_info.t) (r : t)
    : result unit * t :=
  match m_data r !! pos with
  | Some raw =>
      if decide (0 = Buffer.size raw) then (Ok (), emplace_val pos VAL_null r)
      else if decide (Format_info.m_type fi ∈ CDK_TYPE_LIST) then
        match Format_info.get (Format_info.m_type fi) fi with
        | Ok fd =>
            let r := log_mk pos r in
            match Access_mk (Buffer.data raw) fd with
            | Ok v => (Ok (), emplace_val pos v r)
            | Throw e => (Throw e, r)
            end
        | Throw e => (Throw e, r)
        end
      else (Ok (), r)
  | None => (Ok (), emplace_val pos VAL_null r)
  end.

(** [get]: the memoised value, else convert and read it back.  The second
    component is the row after the call, also when the call throws. *)
Definition get (r : t) (pos : N) : result VAL * t :=
  if beyond_mdata r pos then (Throw (std_out_of_range "row column"), r)
  else
    match m_vals r !! pos with
    | Some v => (Ok v, r)
    | None =>                      (* catch (const std::out_of_range&) *)
        match m_mdata r with
        | None => (Throw (std_out_of_range "map::at"), r)      (* throw; *)
        | Some md =>
            match Meta_data.get_format md pos with
            | Throw e => (Throw e, r)
            | Ok fi =>
                match convert_at pos fi r with
                | (Ok _, r') => (map_at (m_vals r') pos, r')
                | (Throw e, r') => (Throw e, r')
                end
            end
        end
    end.

Definition set (pos : N) (val : VAL) (r : t) : t :=
  mk (m_data r) (m_mdata r) (map_emplace pos val (m_vals r))
     (if decide (m_col_count r ≤ pos) then (pos + 1) mod col_count_t_max
      else m_col_count r)
     (mk_calls r).


End defs.
End Row_impl.

(** ** The reply and cursor handles of CDK *)

Inductive Severity : Type := INFO | WARNING | ERROR.

(** The callbacks of [cdk::Row_processor], as the transport issues them. *)
Inductive row_event : Type :=
| Row_begin (pos : N)
| Row_end (pos : N)
| Field_begin (pos : N) (data_len : N)
| Field_end (pos : N)
| Field_null (pos : N)
| Field_data (pos : N) (data : bytes)
| End_of_data.

(** Modelled from the spec: the cursor handle of CDK, by what it answers:
    [col_count()], [type(pos)] (which may raise inside CDK) and the rows
    its row-delivery entry point will push. *)
Record Cursor_cdk := {
  cursor_col_count : N;
  cursor_type : N → result Type_info;
  cursor_rows : list row_event           (* what get_rows() will deliver *)
}.

#[global] Instance Severity_eq_dec : EqDecision Severity.
Proof. solve_decision. Defined.

(** Modelled from the spec: the reply handle of CDK, by what it answers:
    its diagnostic entries, [has_results()], [affected_rows()],
    [last_insert_id()], and the cursor that can be opened on it. *)
Record Reply_cdk := {
  reply_entries : list (Severity * string);
  reply_has_results : bool;
  reply_affected_rows : N;
  reply_last_insert_id : N;
  reply_cursor : Cursor_cdk              (* the cursor a result opens on it *)
}.

(** [entry_count(level)]; [entry_count()] counts the entries of severity
    ERROR. *)
Definition reply_entry_count (r : Reply_cdk) (level : Severity) : N :=
  N.of_nat (length (filter (λ e, e.1 = level) (reply_entries r))).

(** Ghost trace of the calls made on the two handles. *)
Inductive handle_event : Type :=
| Reply_wait | Cursor_new | Cursor_wait | Cursor_get_rows | Cursor_close
| Delete_reply | Delete_cursor.

#[global] Instance handle_event_eq_dec : EqDecision handle_event.
Proof. solve_decision. Defined.

(** ** Result::Impl of connector/result.cc *)

Module Result_Impl.

Record t := mk {
  m_reply : option Reply_cdk;
  m_cursor : option Cursor_cdk;
  m_rows : gmap N Row_data;
  m_pos : N;
  m_guid : bytes
}.

Definition set_rows (rows : gmap N Row_data) (i : t) : t :=
  mk (m_reply i) (m_cursor i) rows (m_pos i) (m_guid i).

Definition set_pos (pos : N) (i : t) : t :=
  mk (m_reply i) (m_cursor i) (m_rows i) pos (m_guid i).

Definition set_cursor (c : option Cursor_cdk) (i : t) : t :=
  mk (m_reply i) c (m_rows i) (m_pos i) (m_guid i).

(** *** Row_processor *)

Definition row_begin (pos : N) (i : t) : bool * t :=
  (true, set_rows (map_emplace pos ∅ (m_rows i)) (set_pos pos i)).

Definition field_begin (pos : N) (i : t) : N * t :=
  let '(rd, rows) := map_index ∅ (m_pos i) (m_rows i) in
  (1024, set_rows (<[m_pos i := map_emplace pos Buffer.empty rd]> rows) i).

(** [m_rows[(unsigned)m_pos][(unsigned)pos].append(data)]. *)
Definition field_data (pos : N) (data : bytes) (i : t) : N * t :=
  let row := m_pos i mod unsigned_max in
  let col := pos mod unsigned_max in
  let '(rd, rows) := map_index ∅ row (m_rows i) in
  let '(buf, rd') := map_index Buffer.empty col rd in
  (1024, set_rows (<[row := <[col := Buffer.append data buf]> rd']> rows) i).

Definition process (ev : row_event) (i : t) : t :=
  match ev with
  | Row_begin pos => snd (row_begin pos i)
  | Field_begin pos _ => snd (field_begin pos i)
  | Field_data pos data => snd (field_data pos data i)
  | Row_end _ | Field_end _ | Field_null _ | End_of_data => i
  end.

(** [read_rows]: [get_rows] drives the callbacks of this object, then
    [wait]. *)
Definition read_rows (i : t) : t * list handle_event :=
  match m_cursor i with
  | None => (i, [])
  | Some c => (foldl (λ i ev, process ev i) i (cursor_rows c),
               [Cursor_get_rows; Cursor_wait])
  end.

Definition init (i : t) : t * list handle_event :=
  match m_reply i with
  | None => (i, [])
  | Some reply =>
      if decide (0 < reply_entry_count reply ERROR) then (i, [Reply_wait])
      else if reply_has_results reply then
        let i := set_cursor (Some (reply_cursor reply)) i in
        let '(i, evs) := read_rows i in
        (i, [Reply_wait; Cursor_new; Cursor_wait] ++ evs ++ [Cursor_close])
      else (i, [Reply_wait])
  end.

(** [Impl(r)] and [Impl(r, guid)]; [m_pos] is not initialised. *)
Definition Impl (r : option Reply_cdk) (guid : bytes) (pos0 : N)
    : t * list handle_event :=
  init (mk r None ∅ pos0 guid).

(** [~Impl]: [delete m_reply; delete m_cursor;] (deleting null does
    nothing). *)
Definition dtor (i : t) : list handle_event :=
  match m_reply i with Some _ => [Delete_reply] | None => [] end ++
  match m_cursor i with Some _ => [Delete_cursor] | None => [] end.

(** [Result::~Result]. *)
Definition Result_dtor (m_owns_impl : bool) (m_impl : t)
    : list handle_event :=
  if m_owns_impl then dtor m_impl else [].

Definition get_row (pos : N) (i : t) : option t :=
  match m_cursor i with
  | None => None
  | Some _ =>
      if decide (N.of_nat (size (m_rows i)) ≤ pos) then None
      else Some (set_pos pos i)
  end.

Definition getBytes (i : t) (pos : N) : result bytes :=
  rd ← map_at (m_rows i) (m_pos i);
  b ← map_at rd pos;
  Ok (Buffer.data b).

(** *** getString

    The function returns the text it has written to the stream.  The
    [try] block catches [std::out_of_range] only. *)

Definition quote : string := String (ascii_of_nat 34) EmptyString.

(** [#X] for the types of [CDK_TYPE_LIST]. *)
Definition TYPE_NAME (T : Type_info) : string :=
  match T with
  | TYPE_INTEGER => "INTEGER: "
  | TYPE_FLOAT => "FLOAT: "
  | TYPE_STRING => "STRING: "
  | TYPE_DATETIME => "DATETIME: "
  | TYPE_BYTES => "BYTES: "
  | TYPE_DOCUMENT => "DOCUMENT: "
  | TYPE_GEOMETRY => "GEOMETRY: "
  | TYPE_XML => "XML: "
  | TYPE_other code => "UNKNOWN(" +:+ pretty code +:+ "): "
  end.

Definition hex_digit (n : N) : ascii :=
  ascii_of_N (if decide (n < 10) then 48 + n else 87 + n).

(** [setw(2) << setfill('0') << hex << (unsigned)*ptr]. *)
Definition hex2 (b : byte) : string :=
  let n := Byte.to_N b in
  String (hex_digit (n / 16)) (String (hex_digit (n mod 16)) EmptyString).

(** [out << s.c_str()] on the wide stream [out]: the characters before
    the first NUL, each widened by the locale of the stream.  A character
    below 128 becomes the wide character of the same code.  What a
    character from 128 on becomes is the choice of the locale (in the
    classic locale it is no character at all), and it need not fit a
    [string]: the model has no text then and answers [locale_dependent]. *)
Fixpoint c_str (data : bytes) : result string :=
  match data with
  | [] => Ok EmptyString
  | b :: data =>
      if Byte.eqb b x00 then Ok EmptyString
      else if decide (Byte.to_N b < 128)
      then txt ← c_str data; Ok (String (ascii_of_byte b) txt)
      else Throw (locale_dependent "a character above 127 on a wide stream")
  end.

Definition value_text (T : Type_info) (data : bytes) : result string :=
  match T with
  | TYPE_STRING =>
      s ← bytes_but_last data; txt ← c_str s; Ok (quote +:+ txt +:+ quote)
  | _ => Ok (foldr (λ b acc, hex2 b +:+ acc) EmptyString data)
  end.

Definition getString (i : t) (pos : N) : result string :=
  match m_cursor i with
  | None => Throw (thrown_literal "empty row")
  | Some cursor =>
      if decide (cursor_col_count cursor < pos)
      then Throw (thrown_literal "pos out of range")
      else
        T ← cursor_type cursor pos;
        let out := TYPE_NAME T in
        rd ← map_at (m_rows i) (m_pos i);
        match rd !! pos with
        | Some b =>
            match T' ← cursor_type cursor pos; value_text T' (Buffer.data b) with
            | Ok txt => Ok (out +:+ txt)
            | Throw (std_out_of_range _) => Ok (out +:+ "<null>")
            | Throw e => Throw e
            end
        | None => Ok (out +:+ "<null>")     (* catch (std::out_of_range&) *)
        end
  end.

(** [RowResult::getColumnCount]. *)
Definition getColumnCount (m_impl : option t) : result N :=
  match m_impl with
  | None => Throw (thrown_literal "Empty result")
  | Some i =>
      match m_cursor i with
      | None => Throw (thrown_literal "No result set")
      | Some c => Ok (cursor_col_count c)
      end
  end.

End Result_Impl.

(** ** Result_impl_base of common/result.h *)

Module Result_impl_base.
Section defs.
Context `{cdk : CDK}.

(** What the constructor reads from a [Result_init]. *)
Record Result_init := {
  get_reply : option Reply_cdk
}.

Record t := mk {
  m_inited : bool;
  m_mdata : option Meta_data.t;
  m_pending_rows : bool;
  m_reply : option Reply_cdk;
  m_cursor : option Cursor_cdk;      (* cursor_rows: not yet delivered *)
  m_row_cache : list Row_data;       (* forward_list, oldest first *)
  m_row_cache_size : N;
  m_diag_ready : bool;
  m_diag : list (Severity * string); (* the Diagnostic_arena base *)
  m_row_filter : Row_data → bool;
  m_row : Row_data
}.

(** Modelled from the spec: the constructor [Result_impl_base(Result_init&)]
    is declared in result.h and defined elsewhere.  The result is
    constructed from a result-initializer and takes the reply that
    [get_reply] hands over; the other members have the initialisers
    written in the class ([m_inited = false], [m_cursor = nullptr], an
    empty cache, a filter that accepts every row). *)
Definition Result_impl_base (init : Result_init) : t :=
  mk false None false (get_reply init) None [] 0 false [] (λ _, true) ∅.

Definition set_cache (cache : list Row_data) (size : N) (s : t) : t :=
  mk (m_inited s) (m_mdata s) (m_pending_rows s) (m_reply s) (m_cursor s)
     cache size (m_diag_ready s) (m_diag s) (m_row_filter s) (m_row s).

Definition set_row (row : Row_data) (s : t) : t :=
  mk (m_inited s) (m_mdata s) (m_pending_rows s) (m_reply s) (m_cursor s)
     (m_row_cache s) (m_row_cache_size s) (m_diag_ready s) (m_diag s)
     (m_row_filter s) row.

Definition set_pending_rows (b : bool) (s : t) : t :=
  mk (m_inited s) (m_mdata s) b (m_reply s) (m_cursor s)
     (m_row_cache s) (m_row_cache_size s) (m_diag_ready s) (m_diag s)
     (m_row_filter s) (m_row s).

Definition set_cursor_rows (evs : list row_event) (s : t) : t :=
  mk (m_inited s) (m_mdata s) (m_pending_rows s) (m_reply s)
     (match m_cursor s with
      | Some c => Some (Build_Cursor_cdk (cursor_col_count c) (cursor_type c) evs)
      | None => None
      end)
     (m_row_cache s) (m_row_cache_size s) (m_diag_ready s) (m_diag s)
     (m_row_filter s) (m_row s).

Definition set_diag (ready : bool) (d : list (Severity * string)) (s : t) : t :=
  mk (m_inited s) (m_mdata s) (m_pending_rows s) (m_reply s) (m_cursor s)
     (m_row_cache s) (m_row_cache_size s) ready d (m_row_filter s) (m_row s).

Definition clear_cache (s : t) : t := set_cache [] 0 s.

Definition clear_diagnostics (s : t) : t := set_diag false [] s.

(** *** Row_processor *)

Definition row_begin (pos : N) (s : t) : bool * t := (true, set_row ∅ s).

(** Modelled from the spec: [field_begin], [field_data], [row_end] and
    [end_of_data] are declared in result.h and defined elsewhere.  A field
    starts with an empty buffer, its chunks are concatenated in delivery
    order; at [row_end] the row filter is evaluated and a rejected row is
    not retained in the cache, an accepted one is appended; [end_of_data]
    records that no rows are pending. *)
Definition field_begin (pos : N) (s : t) : t :=
  set_row (map_emplace pos Buffer.empty (m_row s)) s.

Definition field_data (pos : N) (data : bytes) (s : t) : t :=
  let '(buf, row) := map_index Buffer.empty pos (m_row s) in
  set_row (<[pos := Buffer.append data buf]> row) s.

Definition row_end (pos : N) (s : t) : t :=
  if m_row_filter s (m_row s)
  then set_cache (m_row_cache s ++ [m_row s])
                 ((m_row_cache_size s + 1) mod row_count_t_max) s
  else s.

Definition end_of_data (s : t) : t := set_pending_rows false s.

Definition process (ev : row_event) (s : t) : t :=
  match ev with
  | Row_begin pos => snd (row_begin pos s)
  | Field_begin pos _ => field_begin pos s
  | Field_data pos data => field_data pos data s
  | Row_end pos => row_end pos s
  | End_of_data => end_of_data s
  | Field_end _ | Field_null _ => s
  end.

(** Modelled from the spec: driving the ingest, for [load_cache]: callbacks
    are delivered until the transport has no more, or until
    [prefetch_size] rows have been appended ([0] is unbounded).  The
    result is the part of the stream not delivered and the new state. *)
Fixpoint ingest (prefetch_size : N) (evs : list row_event) (s : t)
    : list row_event * t :=
  match evs with
  | [] => ([], s)
  | ev :: evs' =>
      if decide (0 < prefetch_size ∧
                 prefetch_size ≤ N.of_nat (length (m_row_cache s)))
      then (evs, s)
      else ingest prefetch_size evs' (process ev s)
  end.

(** Modelled from the spec: [load_cache] is declared in result.h (with the
    comment quoted here) and defined elsewhere.  "If cache is not empty, it
    returns true right away.  Otherwise it loads rows into the cache.  If
    prefetch_size is non-zero then at most that many rows are loaded.
    Returns true if some rows are present in the cache." *)
Definition load_cache (prefetch_size : N) (s : t) : bool * t :=
  match m_row_cache s with
  | _ :: _ => (true, s)
  | [] =>
      match m_cursor s with
      | None => (false, s)
      | Some c =>
          let '(rest, s') := ingest prefetch_size (cursor_rows c) s in
          let s'' := set_cursor_rows rest s' in
          (negb (bool_decide (m_row_cache s'' = [])), s'')
      end
  end.

(** Modelled from the spec: [load_diagnostics] is declared in result.h and
    defined elsewhere: the entries are read from the reply on the first
    access and kept until [clear_diagnostics]. *)
Definition load_diagnostics (s : t) : t :=
  if m_diag_ready s then s
  else
    match m_reply s with
    | Some r => set_diag true (m_diag s ++ reply_entries r) s
    | None => s
    end.

(** *** The inline members *)

Definition get_col_count (s : t) : result N :=
  match m_cursor s with
  | None => Throw (Error "No result set")
  | Some c => Ok (cursor_col_count c)
  end.

Definition get_affected_rows (s : t) : result N :=
  match m_reply s with
  | None => Throw (Error "Attempt to get affected rows count on empty result")
  | Some r => Ok (reply_affected_rows r)
  end.

Definition get_auto_increment (s : t) : result N :=
  match m_reply s with
  | None => Throw (Error "Attempt to get auto increment value on empty result")
  | Some r => Ok (reply_last_insert_id r)
  end.

Definition get_warning_count (s : t) : result N * t :=
  match m_reply s with
  | None => (Throw (Error "Attempt to get warning count for empty result"), s)
  | Some r => (Ok (reply_entry_count r WARNING), load_diagnostics s)
  end.

Definition has_data (s : t) : bool :=
  negb (bool_decide (m_row_cache s = [])) || m_pending_rows s.

Definition get_mdata (s : t) : option Meta_data.t := m_mdata s.

Definition store (s : t) : t := snd (load_cache 0 s).

Definition count (s : t) : N * t :=
  let s := store s in (m_row_cache_size s, s).

(** [Result_impl<STR>::get_column]. *)
Definition get_column (s : t) (pos : N) : result Column_info.t :=
  match m_cursor s, m_mdata s with
  | Some _, Some md => Meta_data.get_column md pos
  | _, _ => Throw (Error "No result set")
  end.

(** [m_row_cache_size] is the number of cached rows. *)
Definition cache_size_ok (s : t) : Prop :=
  m_row_cache_size s = N.of_nat (length (m_row_cache s)) mod row_count_t_max.

End defs.
End Result_impl_base.

(** ** Further definitions: the constructor's columns, user-defined rows,
    row delivery, row iteration *)

Section further.
Context `{cdk : CDK}.

(** The column the constructor of [Meta_data] emplaces at [pos] before it
    calls [store_info]: [Format_descr<T>(fi)] for the seven types of its
    switch, the raw column of [add_raw] otherwise. *)
Definition initial_column (md : Meta_data.Meta_data_cdk) (pos : N)
    : Column_info.t :=
  let fi := Meta_data.cdk_format md pos in
  match Meta_data.cdk_type md pos with
  | TYPE_STRING => Column_info.of_descr (Format_info.Format_descr_STRING fi)
  | TYPE_INTEGER => Column_info.of_descr (Format_info.Format_descr_INTEGER fi)
  | TYPE_FLOAT => Column_info.of_descr (Format_info.Format_descr_FLOAT fi)
  | TYPE_DOCUMENT => Column_info.of_descr (Format_info.Format_descr_DOCUMENT fi)
  | TYPE_DATETIME => Column_info.of_descr (Format_info.Format_descr_DATETIME fi)
  | TYPE_GEOMETRY => Column_info.of_descr Format_info.Format_descr_GEOMETRY
  | TYPE_XML => Column_info.of_descr Format_info.Format_descr_XML
  | ti => Column_info.of_raw ti fi
  end.

(** The two assertions of [store_info] hold for what the cursor reports
    at [pos]. *)
Definition assertions_hold (md : Meta_data.Meta_data_cdk) (pos : N) : Prop :=
  ci_decimals (Meta_data.cdk_col_info md pos) < unsigned_short_max ∧
  (Meta_data.cdk_type md pos = TYPE_BYTES →
   0 < pad_width (Meta_data.cdk_format md pos) →
   ci_length (Meta_data.cdk_col_info md pos) mod unsigned_long_max =
     pad_width (Meta_data.cdk_format md pos)).

(** A user-defined row: [Row_impl()] followed by calls of [set], in the
    order of the list. *)
Definition set_all {VAL : Type} `{!Access VAL} (vals : list (N * VAL))
    (r : Row_impl.t (VAL := VAL)) : Row_impl.t :=
  foldl (λ r pv, Row_impl.set pv.1 pv.2 r) r vals.

End further.

(** One field of a row as the transport delivers it: NULL, or a sequence
    of chunks between [field_begin] and [field_end]. *)
Record field_delivery := {
  fd_col : N;
  fd_chunks : option (list bytes)
}.

Definition field_events (f : field_delivery) : list row_event :=
  match fd_chunks f with
  | None => [Field_null (fd_col f)]
  | Some chunks =>
      Field_begin (fd_col f) (bytes_size (concat chunks)) ::
      (Field_data (fd_col f) <$> chunks) ++ [Field_end (fd_col f)]
  end.

Definition delivery_events (row : N) (fs : list field_delivery)
    : list row_event :=
  Row_begin row :: concat (field_events <$> fs) ++ [Row_end row].

(** The raw row a delivery describes: a buffer with the concatenated
    chunks for every field that is not NULL. *)
Definition add_field (rd : Row_data) (f : field_delivery) : Row_data :=
  match fd_chunks f with
  | None => rd
  | Some chunks => <[fd_col f := Buffer.mk (concat chunks)]> rd
  end.

Definition delivered_row (fs : list field_delivery) : Row_data :=
  foldl add_field ∅ fs.

(** The hex dump [getString] writes for a field that is not a string, and
    its inverse. *)
Definition hexdump (data : bytes) : string :=
  foldr (λ b acc, Result_Impl.hex2 b +:+ acc) EmptyString data.

Definition hex_value (a : ascii) : option N :=
  let n := N_of_ascii a in
  if decide (48 ≤ n ∧ n ≤ 57) then Some (n - 48)
  else if decide (97 ≤ n ∧ n ≤ 102) then Some (n - 87)
  else None.

Fixpoint unhexdump (s : string) : option bytes :=
  match s with
  | EmptyString => Some []
  | String a (String b rest) =>
      hi ← hex_value a; lo ← hex_value b;
      byte ← Byte.of_N (16 * hi + lo);
      data ← unhexdump rest;
      Some (byte :: data)
  | String _ EmptyString => None
  end.

(** [Result::getLastDocumentId]. *)
Definition getLastDocumentId (m_impl : option Result_Impl.t) : result bytes :=
  match m_impl with
  | None => Throw (thrown_literal "Empty result")
  | Some i => Ok (Result_Impl.m_guid i)
  end.

(** *** RowResult and DocResult::Impl of connector/result.cc *)

(** A [Row*] handed out by [Result::Impl::get_row]: null, or the [Impl]
    object itself (one object serves as every row of the result). *)
Inductive Row_ptr : Type := NULL | this.

Module RowResult.

(** The members [RowResult] reads: the implementation it shares with
    [Result], and the position of the next row. *)
Record t := mk {
  m_impl : option Result_Impl.t;
  m_pos : N
}.

(** [next]: [m_impl->get_row(m_pos++)]. *)
Definition next (rr : t) : result Row_ptr * t :=
  match m_impl rr with
  | None => (Throw (undefined_behaviour "m_impl is null"), rr)
  | Some i =>
      let pos' := (m_pos rr + 1) mod row_count_t_max in
      match Result_Impl.get_row (m_pos rr) i with
      | Some i' => (Ok this, mk (Some i') pos')
      | None => (Ok NULL, mk (Some i) pos')
      end
  end.

Definition getColumnCount (rr : t) : result N :=
  Result_Impl.getColumnCount (m_impl rr).

(** [n] successive calls of [next]: what they return, and the object
    afterwards. *)
Fixpoint next_repeat (n : nat) (rr : t) : list (result Row_ptr) * t :=
  match n with
  | O => ([], rr)
  | S n =>
      let '(o, rr') := next rr in
      let '(os, rr'') := next_repeat n rr' in
      (o :: os, rr'')
  end.

End RowResult.

Module DocResult_Impl.

(** [class DocResult::Impl : public DbDoc, RowResult]. *)
Record t := mk {
  base : RowResult.t;
  m_row : Row_ptr;
  m_at_front : bool
}.

(** [Impl(Result &init)]: the base is move-constructed from [init], then
    [m_row = next()]. *)
Definition Impl (init : RowResult.t) : result t :=
  match RowResult.next init with
  | (Ok row, rr) => Ok (mk rr row true)
  | (Throw e, _) => Throw e
  end.

Definition next_row (d : t) : result t :=
  if m_at_front d then Ok (mk (base d) (m_row d) false)
  else
    match RowResult.next (base d) with
    | (Ok row, rr) => Ok (mk rr row (m_at_front d))
    | (Throw e, _) => Throw e
    end.

(** [DocResult::next]: the document, or null when no row is left. *)
Definition next (d : t) : result (Row_ptr * t) :=
  d' ← next_row d; Ok (m_row d', d').

(** The row [m_row] points to reads the fields of the row [m_pos] of the
    shared implementation. *)
Definition current_row (d : t) : option N :=
  match m_row d, RowResult.m_impl (base d) with
  | this, Some i => Some (Result_Impl.m_pos i)
  | _, _ => None
  end.

(** [print]: the bytes handed to the JSON codec, [getBytes(0)] without the
    last byte. *)
Definition print_input (d : t) : result bytes :=
  match m_row d, RowResult.m_impl (base d) with
  | NULL, _ => Throw (thrown_literal "No documents")
  | this, None => Throw (undefined_behaviour "m_impl is null")
  | this, Some i =>
      data ← Result_Impl.getBytes i 0; bytes_but_last data
  end.

Fixpoint next_repeat (n : nat) (d : t) : result (list Row_ptr * t) :=
  match n with
  | O => Ok ([], d)
  | S n =>
      '(p, d') ← next d;
      '(ps, d'') ← next_repeat n d';
      Ok (p :: ps, d'')
  end.

End DocResult_Impl.

(** ** Concrete inputs *)

(** An environment to evaluate the definitions in: a format is its pad
    width, assertions are compiled in, and the codecs are simple stand-ins
    (a string is its bytes without the sentinel, a number keeps no
    payload); no general statement below depends on them. *)
Module Examples.

Definition convert_string (data : bytes) (fi : N) : result Value.t :=
  s ← bytes_but_last data; Ok (Value.mk Value.STRING s 0%Z).

Definition convert_native (tag : N) (data : bytes) (fi : N) : result Value.t :=
  Ok (Value.mk (Value.native tag) [] (Z.of_N (bytes_size data))).

#[local] Instance cdk : CDK := {|
  Format_info_cdk := N;
  pad_width := λ fi, fi;
  convert_STRING := convert_string;
  convert_INTEGER := convert_native 1;
  convert_FLOAT := convert_native 2;
  convert_DOCUMENT := convert_native 3;
  NDEBUG := false
|}.

Definition col_info (name : string) (length : N) : Column_info_cdk :=
  {| ci_orig_name := name; ci_name := name;
     ci_table := Some {| table_orig_name := "t"; table_name := "t";
                         table_schema := Some {| schema_name := "db" |} |};
     ci_collation := 0; ci_length := length; ci_decimals := 0 |}.

(** Five columns: a string, fixed-width bytes (pad width 4), a datetime, a
    wire type with the unrecognised code 99, and variable-width bytes. *)
Definition md : Meta_data.Meta_data_cdk := {|
  Meta_data.cdk_col_count := 5;
  Meta_data.cdk_type := λ pos,
    match pos with
    | 0 => TYPE_STRING
    | 1 => TYPE_BYTES
    | 2 => TYPE_DATETIME
    | 3 => TYPE_other 99
    | _ => TYPE_BYTES
    end;
  Meta_data.cdk_format := λ pos, match pos with 1 => 4 | _ => 0 end;
  Meta_data.cdk_col_info := λ pos,
    match pos with 1 => col_info "c" 4 | _ => col_info "c" 0 end
|}.

Definition no_columns : Meta_data.t := Meta_data.mk 0 ∅.

Definition mdata : Meta_data.t :=
  match Meta_data.Meta_data md with
  | Ok m => m
  | Throw _ => no_columns
  end.

Definition column (pos : N) : Column_info.t :=
  match Meta_data.get_column mdata pos with
  | Ok c => c
  | Throw _ => Column_info.of_raw TYPE_BYTES 0
  end.

(** A row: "ab", four bytes, NULL, one byte of the unrecognised type, and
    an empty byte string (the sentinel alone). *)
Definition row_data : Row_data :=
  <[0 := Buffer.mk [x61; x62; x00]]>
  (<[1 := Buffer.mk [x01; x02; x03; x04; x00]]>
  (<[3 := Buffer.mk [x41; x00]]>
  (<[4 := Buffer.mk [x00]]> ∅))).

Definition row : Row_impl.t (VAL := Value.t) :=
  Row_impl.Row_impl row_data (Some mdata).

(** The same row as the transport delivers it, the second field in two
    chunks. *)
Definition row_events : list row_event :=
  [Row_begin 0;
   Field_begin 0 3; Field_data 0 [x61; x62; x00]; Field_end 0;
   Field_begin 1 5; Field_data 1 [x01; x02]; Field_data 1 [x03; x04; x00];
   Field_end 1;
   Field_null 2;
   Field_begin 3 2; Field_data 3 [x41; x00]; Field_end 3;
   Field_begin 4 1; Field_data 4 [x00]; Field_end 4;
   Row_end 0;
   End_of_data].

Definition cursor : Cursor_cdk := {|
  cursor_col_count := 5;
  cursor_type := λ pos,
    if pos <? 5 then Ok (Meta_data.cdk_type md pos)
    else Throw (external_error "no meta-data for the column");
  cursor_rows := row_events
|}.

(** A cursor that answers [type] for every position. *)
Definition lenient_cursor : Cursor_cdk := {|
  cursor_col_count := 5;
  cursor_type := λ pos, Ok (Meta_data.cdk_type md pos);
  cursor_rows := row_events
|}.

(** A reply announcing one result with rows, one warning, no error. *)
Definition reply : Reply_cdk := {|
  reply_entries := [(WARNING, "truncated")];
  reply_has_results := true;
  reply_affected_rows := 1;
  reply_last_insert_id := 7;
  reply_cursor := cursor
|}.

Definition lenient_reply : Reply_cdk := {|
  reply_entries := [];
  reply_has_results := true;
  reply_affected_rows := 0;
  reply_last_insert_id := 0;
  reply_cursor := lenient_cursor
|}.

(** A reply carrying an error entry. *)
Definition failed_reply : Reply_cdk := {|
  reply_entries := [(ERROR, "syntax error")];
  reply_has_results := true;
  reply_affected_rows := 0;
  reply_last_insert_id := 0;
  reply_cursor := cursor
|}.

Definition impl (r : Reply_cdk) : Result_Impl.t :=
  fst (Result_Impl.Impl (Some r) [] 0).

(** A row whose fields of the unrecognised type and of type BYTES hold the
    sentinel byte alone; the other fields are NULL. *)
Definition empty_fields : Row_impl.t (VAL := Value.t) :=
  Row_impl.Row_impl
    (<[3 := Buffer.mk [x00]]> (<[4 := Buffer.mk [x00]]> ∅)) (Some mdata).

(** A result object on which nothing has been prepared yet. *)
Definition unprepared : Result_impl_base.t :=
  Result_impl_base.Result_impl_base
    {| Result_impl_base.get_reply := Some reply |}.

(** A prepared result whose rows are still with the transport. *)
Definition prepared : Result_impl_base.t :=
  Result_impl_base.mk true (Some mdata) true (Some reply) (Some cursor)
    [] 0 false [] (λ _, true) ∅.

(** Values a user sets on a row of their own, position 2 twice. *)
Definition user_vals : list (N * Value.t) :=
  [(2, Value.mk Value.RAW [x01] 0%Z); (0, Value.null);
   (2, Value.mk Value.RAW [x02] 0%Z)].

(** The first three fields of the example row as the transport delivers
    them: the second in two chunks, the third NULL. *)
Definition fields : list field_delivery :=
  [ {| fd_col := 0; fd_chunks := Some [[x61; x62; x00]] |};
    {| fd_col := 1; fd_chunks := Some [[x01; x02]; [x03; x04; x00]] |};
    {| fd_col := 2; fd_chunks := None |} ].








(** An implementation object that has read nothing. *)
Definition blank : Result_Impl.t := Result_Impl.mk None None ∅ 0 [].

End Examples.

(** * Properties *)

(** ** Maps, bytes and results *)

Lemma bind_Ok {A B} (m : result A) (f : A → result B) b :
  m ≫= f = Ok b ↔ ∃ a, m = Ok a ∧ f a = Ok b.
Proof.
  destruct m as [a|e]; simpl; split.
  - intros Hf. by exists a.
  - by intros (a' & [= <-] & Hf).
  - done.
  - by intros (a' & [=] & _).
Qed.

Lemma map_at_Ok {V} (m : gmap N V) k v : map_at m k = Ok v ↔ m !! k = Some v.
Proof. unfold map_at. destruct (m !! k); split; congruence. Qed.

Lemma map_at_Throw_None {V} (m : gmap N V) k e :
  map_at m k = Throw e → m !! k = None.
Proof. unfold map_at. by destruct (m !! k). Qed.

Lemma lookup_map_emplace {V} (m : gmap N V) k v j :
  map_emplace k v m !! j =
    if decide (k = j) then Some (default v (m !! k)) else m !! j.
Proof.
  unfold map_emplace. destruct (m !! k) eqn:E; case_decide; subst; simpl;
    rewrite ?E, ?lookup_insert_eq, ?lookup_insert_ne by done; done.
Qed.


Lemma removelast_length {A} (l : list A) :
  length (removelast l) = pred (length l).
Proof.
  induction l as [|a [|b l] IH]; simpl in *; try done. by rewrite IH.
Qed.

Lemma take_pred_removelast {A} (l : list A) :
  take (pred (length l)) l = removelast l.
Proof.
  induction l as [|a [|b l] IH]; simpl in *; try done. by rewrite IH.
Qed.

Lemma wrap_sub_small modulus a b :
  b ≤ a → a < modulus → wrap_sub modulus a b = a - b.
Proof.
  intros Hb Ha. unfold wrap_sub. rewrite Z.mod_small by lia. lia.
Qed.

Section properties.
Context `{cdk : CDK}.

(** ** The generic conversion *)

Lemma convert_generic_strips (data : bytes) :
  0 ≠ bytes_size data → bytes_size data < size_t_max →
  convert_generic data = Ok (Value.mk Value.RAW (removelast data) 0%Z).
Proof.
  intros Hne Hlt. unfold convert_generic, Value.raw, bytes_prefix.
  rewrite wrap_sub_small by lia.
  rewrite decide_True by lia. simpl.
  replace (N.to_nat (bytes_size data - 1)) with (pred (length data))
    by (unfold bytes_size in *; lia).
  by rewrite take_pred_removelast.
Qed.

Lemma convert_no_codec (data : bytes) (f : Format_info.t) :
  Format_info.built f → has_codec (Format_info.m_type f) = false →
  convert data (Format_info.m_fmt f) = convert_generic data.
Proof.
  intros [[fd ->]|(code & fi & ->)] Hc; [|done].
  by destruct fd.
Qed.

Lemma Value_Access_mk_raw (data : bytes) fd s :
  convert data fd = Ok (Value.mk Value.RAW s 0%Z) →
  Value_Access_mk data fd = Ok (Value.mk Value.RAW s 0%Z).
Proof. unfold Value_Access_mk. by intros ->. Qed.

(** ** The columns built by the Meta_data constructor *)

Lemma store_info_base ci (c c' : Column_info.t) :
  Column_info.store_info ci c = Ok c' → Column_info.base c' = Column_info.base c.
Proof.
  unfold Column_info.store_info. intros H.
  apply bind_Ok in H as (_ & _ & H). apply bind_Ok in H as (p & _ & [= <-]).
  done.
Qed.

Lemma add_stored_inv pos ci c0 (m m' : Meta_data.t) :
  Meta_data.add_stored pos ci c0 m = Ok m' →
  ∃ c', Column_info.store_info ci (default c0 (Meta_data.m_cols m !! pos)) = Ok c' ∧
        m' = Meta_data.mk (Meta_data.m_col_count m)
               (<[pos := c']> (Meta_data.m_cols m)).
Proof.
  unfold Meta_data.add_stored. intros H.
  apply bind_Ok in H as (c & Hc & H). apply bind_Ok in H as (c' & Hs & [= <-]).
  apply map_at_Ok in Hc. rewrite lookup_map_emplace, decide_True in Hc by done.
  injection Hc as <-. exists c'. split; [done|]. f_equal.
  unfold map_emplace. destruct (Meta_data.m_cols m !! pos); [done|].
  by rewrite insert_insert_eq.
Qed.

(** The column a fresh position gets: its constructor, by wire type. *)
Lemma add_column_inv md pos (m m' : Meta_data.t) :
  Meta_data.add_column md pos m = Ok m' →
  ∃ c0 c', Format_info.built (Column_info.base c0) ∧
           Column_info.m_type c0 = Meta_data.cdk_type md pos ∧
           (Column_info.m_padded c0 = false ∧
            (Column_info.m_type c0 = TYPE_BYTES →
             Format_info.m_fmt (Column_info.base c0) =
               Format_info.Format_descr_BYTES (Meta_data.cdk_format md pos))) ∧
           Column_info.store_info (Meta_data.cdk_col_info md pos)
             (default c0 (Meta_data.m_cols m !! pos)) = Ok c' ∧
           m' = Meta_data.mk (Meta_data.m_col_count m)
                  (<[pos := c']> (Meta_data.m_cols m)).
Proof.
  unfold Meta_data.add_column, Meta_data.add, Meta_data.add_raw. intros H.
  destruct (Meta_data.cdk_type md pos) eqn:ET;
    apply add_stored_inv in H as (c' & Hs & ->);
    eexists _, c'; (split; [|split; [|split; [|split; [exact Hs|done]]]]);
    try done;
    try (left; eexists; reflexivity).
  - left. by exists (Format_info.Format_descr_BYTES (Meta_data.cdk_format md pos)).
  - right. by eexists _, _.
Qed.

Lemma add_columns_inv md ps : ∀ (m m' : Meta_data.t),
  Meta_data.add_columns md ps m = Ok m' →
  Meta_data.columns_built m →
  Meta_data.m_col_count m' = Meta_data.m_col_count m ∧
  Meta_data.columns_built m' ∧
  ∀ j, is_Some (Meta_data.m_cols m' !! j) ↔
       j ∈ ps ∨ is_Some (Meta_data.m_cols m !! j).
Proof.
  induction ps as [|pos ps IH]; intros m m' H Hb; simpl in H.
  - injection H as <-. split; [done|]. split; [done|].
    intros j. rewrite elem_of_nil. tauto.
  - apply bind_Ok in H as (m1 & H1 & H).
    apply add_column_inv in H1 as (c0 & c' & Hb0 & _ & _ & Hs & ->).
    apply IH in H as (Hn & Hb' & Hdom).
    + split; [done|]. split; [done|]. intros j. rewrite Hdom. simpl.
      rewrite elem_of_cons, lookup_insert. case_decide; subst.
      * split; [auto|]. intros _. right. by eexists.
      * split; [intros [?|?]; auto|intros [[?|?]|?]; auto; congruence].
    + intros j c. simpl. rewrite lookup_insert. case_decide; subst.
      * intros [= <-]. rewrite (store_info_base _ _ _ Hs).
        destruct (Meta_data.m_cols m !! j) eqn:E; simpl; [by eapply Hb|done].
      * apply Hb.
Qed.

Lemma elem_of_positions n j : j ∈ Meta_data.positions n ↔ j < n.
Proof.
  unfold Meta_data.positions. rewrite list_elem_of_fmap. split.
  - intros (k & -> & Hk). apply elem_of_seq in Hk. lia.
  - intros Hj. exists (N.to_nat j). split; [lia|]. apply elem_of_seq. lia.
Qed.

Lemma Meta_data_inv md (m : Meta_data.t) :
  Meta_data.Meta_data md = Ok m →
  Meta_data.col_count m = Meta_data.cdk_col_count md ∧
  Meta_data.columns_built m ∧
  ∀ j, is_Some (Meta_data.m_cols m !! j) ↔ j < Meta_data.col_count m.
Proof.
  unfold Meta_data.Meta_data. intros H.
  apply add_columns_inv in H as (Hn & Hb & Hdom).
  - unfold Meta_data.col_count. rewrite Hn. simpl. split; [done|].
    split; [done|]. intros j. rewrite Hdom, elem_of_positions. simpl.
    rewrite lookup_empty. split; [intros [?|[? ?]]; done|auto].
  - intros j c. simpl. by rewrite lookup_empty.
Qed.

(** ** Typed rows *)

Lemma not_elem_of_CDK_TYPE_LIST code : TYPE_other code ∉ CDK_TYPE_LIST.
Proof.
  intros H. unfold CDK_TYPE_LIST in H.
  repeat (apply elem_of_cons in H as [H|H]; [discriminate|]).
  by apply elem_of_nil in H.
Qed.

Section rows.
Context {VAL : Type} `{!Access VAL}.
Implicit Types r : Row_impl.t (VAL := VAL).

Lemma convert_at_mdata pos fi r :
  Row_impl.m_mdata (snd (Row_impl.convert_at pos fi r)) = Row_impl.m_mdata r ∧
  Row_impl.m_data (snd (Row_impl.convert_at pos fi r)) = Row_impl.m_data r.
Proof.
  unfold Row_impl.convert_at.
  repeat (case_match; simpl; try done).
Qed.

Lemma convert_at_null pos fi r :
  Row_impl.is_null_field r pos →
  Row_impl.convert_at pos fi r =
    (Ok (), Row_impl.emplace_val pos VAL_null r).
Proof.
  unfold Row_impl.is_null_field, Row_impl.convert_at.
  destruct (Row_impl.m_data r !! pos) as [raw|]; [|done].
  intros ->. by rewrite decide_True.
Qed.

(** With an unrecognised wire type no case of the switch is taken. *)
Lemma convert_at_unrecognised pos fi r code :
  Format_info.m_type fi = TYPE_other code →
  ¬ Row_impl.is_null_field r pos →
  Row_impl.convert_at pos fi r = (Ok (), r).
Proof.
  unfold Row_impl.is_null_field, Row_impl.convert_at. intros Hty.
  destruct (Row_impl.m_data r !! pos) as [raw|]; [|done].
  intros Hnn. rewrite decide_False by done. rewrite Hty.
  by rewrite decide_False by apply not_elem_of_CDK_TYPE_LIST.
Qed.

Lemma convert_at_known pos fi r raw :
  Format_info.built fi →
  Format_info.m_type fi ∈ CDK_TYPE_LIST →
  Row_impl.m_data r !! pos = Some raw → 0 ≠ Buffer.size raw →
  Row_impl.convert_at pos fi r =
    match Access_mk (Buffer.data raw) (Format_info.m_fmt fi) with
    | Ok v => (Ok (), Row_impl.emplace_val pos v (Row_impl.log_mk pos r))
    | Throw e => (Throw e, Row_impl.log_mk pos r)
    end.
Proof.
  intros Hb Hin Hraw Hnn. unfold Row_impl.convert_at.
  rewrite Hraw, decide_False, decide_True by done.
  unfold Format_info.get.
  destruct Hb as [[fd ->]|(code & fi' & ->)]; simpl.
  - by rewrite decide_True.
  - by apply not_elem_of_CDK_TYPE_LIST in Hin.
Qed.










(** A NULL field decodes to the NULL value, whatever the wire type. *)
Lemma get_null_field r pos md fi :
  Row_impl.m_mdata r = Some md → pos < Meta_data.col_count md →
  Meta_data.get_format md pos = Ok fi →
  Row_impl.m_vals r !! pos = None →
  Row_impl.is_null_field r pos →
  Row_impl.get r pos = (Ok VAL_null, Row_impl.emplace_val pos VAL_null r).
Proof.
  intros Hmd Hpos Hfi Hv Hnull. unfold Row_impl.get, Row_impl.beyond_mdata.
  rewrite Hmd, bool_decide_eq_false_2 by lia.
  rewrite Hv, Hfi, convert_at_null by done. simpl.
  unfold map_at. by rewrite lookup_map_emplace, decide_True, Hv.
Qed.

(** [get_bytes] and [get] check the position against the meta-data. *)
Lemma get_bytes_range r pos md :
  Row_impl.m_mdata r = Some md →
  (Meta_data.col_count md ≤ pos →
   Row_impl.get_bytes r pos = Throw (std_out_of_range "row column")) ∧
  (pos < Meta_data.col_count md → is_Ok (Row_impl.get_bytes r pos)).
Proof.
  intros Hmd. unfold Row_impl.get_bytes, Row_impl.beyond_mdata. rewrite Hmd.
  split; intros Hpos.
  - by rewrite bool_decide_eq_true_2.
  - rewrite bool_decide_eq_false_2 by lia.
    destruct (Row_impl.m_data r !! pos); by eexists.
Qed.

Lemma get_beyond r pos md :
  Row_impl.m_mdata r = Some md → Meta_data.col_count md ≤ pos →
  Row_impl.get r pos = (Throw (std_out_of_range "row column"), r).
Proof.
  intros Hmd Hpos. unfold Row_impl.get, Row_impl.beyond_mdata.
  by rewrite Hmd, bool_decide_eq_true_2.
Qed.

(** C10.  For a position in range, [get_bytes] raises nothing; it returns
    the empty byte sequence for a field absent from the raw data, and it
    returns the empty sequence exactly for the fields [convert_at] treats
    as NULL, which [get] decodes to the NULL value; a non-NULL field is
    returned with its sentinel, so with at least one byte. *)
Theorem get_bytes_empty_is_null r pos md fi :
  Row_impl.m_mdata r = Some md → pos < Meta_data.col_count md →
  Meta_data.get_format md pos = Ok fi →
  (Row_impl.m_data r !! pos = None → Row_impl.get_bytes r pos = Ok []) ∧
  (Row_impl.get_bytes r pos = Ok [] ↔ Row_impl.is_null_field r pos) ∧
  (Row_impl.get_bytes r pos = Ok [] → Row_impl.m_vals r !! pos = None →
   fst (Row_impl.get r pos) = Ok VAL_null) ∧
  (¬ Row_impl.is_null_field r pos →
   ∃ b, Row_impl.get_bytes r pos = Ok b ∧ 1 ≤ bytes_size b).
Proof.
  intros Hmd Hpos Hfi.
  assert (Hiff : Row_impl.get_bytes r pos = Ok [] ↔ Row_impl.is_null_field r pos).
  { unfold Row_impl.get_bytes, Row_impl.beyond_mdata, Row_impl.is_null_field.
    rewrite Hmd, bool_decide_eq_false_2 by lia.
    destruct (Row_impl.m_data r !! pos) as [[b]|]; [|done].
    unfold Buffer.size, Buffer.data, bytes_size. simpl.
    split; [by intros [= ->]|]. destruct b; [done|]. simpl. lia. }
  split; [|split; [done|split]].
  - intros Habs. apply Hiff. unfold Row_impl.is_null_field. by rewrite Habs.
  - intros He Hv. apply Hiff in He.
    by rewrite (get_null_field r pos md fi).
  - intros Hnn. unfold Row_impl.get_bytes, Row_impl.beyond_mdata.
    unfold Row_impl.is_null_field in Hnn.
    rewrite Hmd, bool_decide_eq_false_2 by lia.
    destruct (Row_impl.m_data r !! pos) as [[b]|]; [|done].
    eexists. split; [done|].
    unfold Buffer.size, Buffer.data, bytes_size in *. simpl in *. lia.
Qed.

End rows.

(** ** Conversion without a codec *)

(** C1.  For a column of the meta-data whose wire type has no value codec
    (datetime, bytes, geometry, xml or an unrecognised type), [convert]
    applied to the column's format descriptor and a non-NULL buffer of
    length [n] yields the raw-bytes value holding the buffer without its
    last byte, of length [n - 1]; [Value::Access::mk] returns it
    unchanged. *)
Theorem convert_without_codec md (m : Meta_data.t) pos col (data : bytes) :
  Meta_data.Meta_data md = Ok m →
  Meta_data.get_column m pos = Ok col →
  has_codec (Column_info.m_type col) = false →
  0 ≠ bytes_size data → bytes_size data < size_t_max →
  convert data (Format_info.m_fmt (Column_info.base col)) =
    Ok (Value.mk Value.RAW (removelast data) 0%Z) ∧
  Value_Access_mk data (Format_info.m_fmt (Column_info.base col)) =
    Ok (Value.mk Value.RAW (removelast data) 0%Z) ∧
  bytes_size (removelast data) = bytes_size data - 1.
Proof.
  intros Hm Hcol Hc Hne Hlt.
  apply Meta_data_inv in Hm as (_ & Hb & _).
  apply map_at_Ok in Hcol. apply Hb in Hcol.
  assert (convert data (Format_info.m_fmt (Column_info.base col)) =
            Ok (Value.mk Value.RAW (removelast data) 0%Z)) as Hconv.
  { rewrite convert_no_codec by done. by apply convert_generic_strips. }
  split; [done|]. split; [by apply Value_Access_mk_raw|].
  unfold bytes_size in *. rewrite removelast_length. lia.
Qed.

(** The same through [Row_impl::get], for the four recognised types
    without codec. *)
Lemma get_no_codec_column (r : Row_impl.t (VAL := Value.t)) pos md fi raw :
  Row_impl.m_mdata r = Some md → pos < Meta_data.col_count md →
  Meta_data.get_format md pos = Ok fi → Format_info.built fi →
  Format_info.m_type fi ∈ [TYPE_DATETIME; TYPE_BYTES; TYPE_GEOMETRY; TYPE_XML] →
  Row_impl.m_vals r !! pos = None →
  Row_impl.m_data r !! pos = Some raw →
  0 ≠ Buffer.size raw → Buffer.size raw < size_t_max →
  fst (Row_impl.get r pos) =
    Ok (Value.mk Value.RAW (removelast (Buffer.data raw)) 0%Z).
Proof.
  intros Hmd Hpos Hfi Hb Hty Hv Hraw Hnn Hlt.
  unfold Row_impl.get, Row_impl.beyond_mdata.
  rewrite Hmd, bool_decide_eq_false_2 by lia. rewrite Hv, Hfi.
  assert (Format_info.m_type fi ∈ CDK_TYPE_LIST ∧
          has_codec (Format_info.m_type fi) = false) as [Hin Hc].
  { unfold CDK_TYPE_LIST. rewrite !elem_of_cons, elem_of_nil in Hty.
    destruct Hty as [->|[->|[->|[->|[]]]]]; split; try done;
      rewrite !elem_of_cons; auto 10. }
  rewrite (convert_at_known _ _ _ raw) by done. simpl.
  unfold Value_Access_mk. rewrite convert_no_codec by done.
  rewrite convert_generic_strips by done. simpl.
  unfold map_at. by rewrite lookup_map_emplace, decide_True, Hv.
Qed.

(** ** Padded columns *)

Lemma built_BYTES (f : Format_info.t) :
  Format_info.built f → Format_info.m_type f = TYPE_BYTES →
  ∃ fi, f = Format_info.of_descr (Format_info.Format_descr_BYTES fi).
Proof.
  intros [[fd ->]|(code & fi & ->)] Hty; [|done].
  destruct fd; try done. by eexists.
Qed.

Lemma store_padded_BYTES (c : Column_info.t) fi length :
  Column_info.base c = Format_info.of_descr (Format_info.Format_descr_BYTES fi) →
  Column_info.store_padded c length =
    if decide (0 < pad_width fi)
    then _ ← assert (length =? pad_width fi) "m_length == pad_width"; Ok true
    else Ok (Column_info.m_padded c).
Proof.
  intros Hb. unfold Column_info.store_padded, Column_info.m_type.
  by rewrite Hb.
Qed.

Lemma store_padded_other (c : Column_info.t) length :
  Column_info.m_type c ≠ TYPE_BYTES →
  Column_info.store_padded c length = Ok (Column_info.m_padded c).
Proof.
  intros Hty. unfold Column_info.store_padded.
  by rewrite decide_False by congruence.
Qed.

Lemma store_info_inv ci (c c' : Column_info.t) :
  Column_info.store_info ci c = Ok c' →
  Column_info.store_padded c (ci_length ci mod unsigned_long_max) =
    Ok (Column_info.m_padded c') ∧
  Column_info.base c' = Column_info.base c ∧
  Column_info.m_length c' = ci_length ci mod unsigned_long_max.
Proof.
  unfold Column_info.store_info. intros H.
  apply bind_Ok in H as (_ & _ & H). apply bind_Ok in H as (p & Hp & [= <-]).
  done.
Qed.

(** Whenever [store_info] returns, the column is padded exactly when its
    type is BYTES with a positive pad width. *)
Lemma store_info_padded_iff ci (c c' : Column_info.t) :
  Format_info.built (Column_info.base c) →
  Column_info.m_padded c = false →
  Column_info.store_info ci c = Ok c' →
  (Column_info.m_padded c' = true ↔
   Column_info.m_type c = TYPE_BYTES ∧
   ∃ fi, Format_info.m_fmt (Column_info.base c) =
           Format_info.Format_descr_BYTES fi ∧ 0 < pad_width fi).
Proof.
  intros Hb Hp Hs. apply store_info_inv in Hs as (Hsp & _ & _).
  destruct (decide (Column_info.m_type c = TYPE_BYTES)) as [Hty|Hty].
  - destruct (built_BYTES _ Hb Hty) as [fi Hbase].
    rewrite (store_padded_BYTES c fi) in Hsp by done.
    rewrite Hbase. simpl. destruct (decide (0 < pad_width fi)) as [Hpad|Hpad].
    + apply bind_Ok in Hsp as (_ & _ & [= <-]). split; [|done].
      intros _. split; [done|]. by exists fi.
    + injection Hsp as <-. rewrite Hp. split; [done|].
      intros (_ & fi' & [= <-] & ?). done.
  - rewrite store_padded_other in Hsp by done. injection Hsp as <-.
    rewrite Hp. split; [done|]. by intros [? _].
Qed.

(** C9.  [store_info] on a column made by either constructor: when the
    wire type is BYTES, the pad width positive and the declared length
    equal to it, the assertion [m_length == pad_width] does not fail in
    any build, and the column is stored padded unless the limit check on
    the decimals fails; and whenever [store_info] returns, the column is
    padded exactly when its type is BYTES with a positive pad width, so
    BYTES with pad width zero and every other type stay unpadded. *)
Theorem store_info_padded ci (c : Column_info.t) :
  Format_info.built (Column_info.base c) →
  Column_info.m_padded c = false →
  (∀ fi, Column_info.base c =
           Format_info.of_descr (Format_info.Format_descr_BYTES fi) →
         0 < pad_width fi →
         ci_length ci mod unsigned_long_max = pad_width fi →
         Column_info.store_info ci c ≠
           Throw (assertion_failed "m_length == pad_width") ∧
         (ci_decimals ci < unsigned_short_max →
          ∃ c', Column_info.store_info ci c = Ok c' ∧
                Column_info.m_padded c' = true)) ∧
  (∀ c', Column_info.store_info ci c = Ok c' →
         (Column_info.m_padded c' = true ↔
          Column_info.m_type c = TYPE_BYTES ∧
          ∃ fi, Format_info.m_fmt (Column_info.base c) =
                  Format_info.Format_descr_BYTES fi ∧ 0 < pad_width fi)).
Proof.
  intros Hb Hp. split.
  - intros fi Hbase Hpad Hlen.
    assert (Column_info.store_padded c (ci_length ci mod unsigned_long_max)
            = Ok true) as Hsp.
    { rewrite (store_padded_BYTES c fi) by done.
      rewrite decide_True by done. unfold assert.
      by rewrite Hlen, N.eqb_refl. }
    unfold Column_info.store_info. rewrite Hsp. split.
    + unfold assert. destruct (_ || NDEBUG); simpl; congruence.
    + intros Hdec. unfold assert.
      rewrite (proj2 (N.ltb_lt _ _) Hdec). simpl. by eexists.
  - intros c' Hs. by apply (store_info_padded_iff ci).
Qed.

(** The same for every column the constructor of [Meta_data] stores. *)
Lemma add_columns_ok md ps : ∀ (m m' : Meta_data.t),
  Meta_data.add_columns md ps m = Ok m' →
  NoDup ps → (∀ j, j ∈ ps → Meta_data.m_cols m !! j = None) →
  (∀ j c, Meta_data.m_cols m !! j = Some c → Meta_data.column_ok md j c) →
  ∀ j c, Meta_data.m_cols m' !! j = Some c → Meta_data.column_ok md j c.
Proof.
  induction ps as [|pos ps IH]; intros m m' H Hnd Hfresh Hok; simpl in H.
  { by injection H as <-. }
  apply bind_Ok in H as (m1 & H1 & H).
  apply add_column_inv in H1 as (c0 & c' & Hb0 & Hty0 & [Hp0 Hf0] & Hs & ->).
  rewrite Hfresh in Hs by (apply elem_of_cons; auto). simpl in Hs.
  apply NoDup_cons in Hnd as [Hnin Hnd].
  eapply IH; [exact H|done| |].
  - intros j Hj. simpl. rewrite lookup_insert_ne by (intros ->; done).
    apply Hfresh, elem_of_cons. by right.
  - intros j c. simpl. rewrite lookup_insert. case_decide; [subst j|by apply Hok].
    intros [= <-].
    pose proof (store_info_padded_iff _ _ _ Hb0 Hp0 Hs) as Hiff.
    pose proof (store_info_base _ _ _ Hs) as Hbase.
    split; [by rewrite Hbase|]. split.
    { unfold Column_info.m_type in *. by rewrite Hbase. }
    rewrite Hiff, <- Hty0. split.
    + intros (Hty & fi & Hfmt & Hpad). split; [done|].
      rewrite Hf0 in Hfmt by done. by injection Hfmt as <-.
    + intros [Hty Hpad]. split; [done|]. eexists. split; [by apply Hf0|done].
Qed.

Lemma NoDup_positions n : NoDup (Meta_data.positions n).
Proof.
  unfold Meta_data.positions. apply NoDup_fmap_2; [|apply NoDup_seq].
  intros x y Hxy. lia.
Qed.

Lemma Meta_data_columns md (m : Meta_data.t) pos col :
  Meta_data.Meta_data md = Ok m →
  Meta_data.get_column m pos = Ok col →
  Meta_data.column_ok md pos col.
Proof.
  unfold Meta_data.Meta_data. intros Hm Hcol. apply map_at_Ok in Hcol.
  eapply add_columns_ok; [exact Hm|apply NoDup_positions| | |exact Hcol].
  - intros j _. apply lookup_empty.
  - intros j c. simpl. by rewrite lookup_empty.
Qed.

(** ** Positions out of range *)

Lemma get_column_range md (m : Meta_data.t) pos :
  Meta_data.Meta_data md = Ok m →
  (Meta_data.col_count m ≤ pos →
   Meta_data.get_column m pos = Throw (std_out_of_range "map::at")) ∧
  (pos < Meta_data.col_count m → is_Ok (Meta_data.get_column m pos)).
Proof.
  intros Hm. apply Meta_data_inv in Hm as (_ & _ & Hdom).
  unfold Meta_data.get_column, map_at. split; intros Hpos.
  - destruct (Meta_data.m_cols m !! pos) eqn:E; [|done].
    assert (pos < Meta_data.col_count m) by (apply Hdom; by eexists). lia.
  - apply Hdom in Hpos as [c ->]. by eexists.
Qed.

Lemma getString_beyond (i : Result_Impl.t) cursor pos :
  Result_Impl.m_cursor i = Some cursor →
  cursor_col_count cursor < pos →
  Result_Impl.getString i pos = Throw (thrown_literal "pos out of range").
Proof.
  intros Hc Hpos. unfold Result_Impl.getString. by rewrite Hc, decide_True.
Qed.

(** C3.  The guard of [getString] is [pos > col_count]: the position
    [col_count], the first one outside the range, passes it.  When the
    cursor answers [type] there, the field is looked up in the row, is not
    found, and the call returns the text of a NULL field instead of
    failing with an out-of-range error. *)
Theorem getString_at_col_count (i : Result_Impl.t) cursor T rd :
  Result_Impl.m_cursor i = Some cursor →
  cursor_type cursor (cursor_col_count cursor) = Ok T →
  Result_Impl.m_rows i !! Result_Impl.m_pos i = Some rd →
  rd !! cursor_col_count cursor = None →
  Result_Impl.getString i (cursor_col_count cursor) =
    Ok (Result_Impl.TYPE_NAME T +:+ "<null>").
Proof.
  intros Hc HT Hrow Hfield. unfold Result_Impl.getString.
  rewrite Hc, decide_False by lia. rewrite HT. simpl.
  unfold map_at. rewrite Hrow. simpl. by rewrite Hfield.
Qed.

Lemma c_str_Throw (data : bytes) e :
  Result_Impl.c_str data = Throw e → ∃ what, e = locale_dependent what.
Proof.
  induction data as [|b data IH]; simpl; [done|].
  destruct (Byte.eqb b x00); [done|]. case_decide.
  - destruct (Result_Impl.c_str data) as [txt|e']; simpl; [done|].
    intros [= <-]. by apply IH.
  - intros [= <-]. by eexists.
Qed.

(** Whatever the cursor answers, the guard does not reject [col_count]. *)
Lemma getString_guard_off_by_one (i : Result_Impl.t) cursor :
  Result_Impl.m_cursor i = Some cursor →
  (∀ e, cursor_type cursor (cursor_col_count cursor) = Throw e →
        e ≠ thrown_literal "pos out of range") →
  Result_Impl.getString i (cursor_col_count cursor) ≠
    Throw (thrown_literal "pos out of range").
Proof.
  intros Hc Hext. unfold Result_Impl.getString.
  rewrite Hc, decide_False by lia.
  destruct (cursor_type cursor (cursor_col_count cursor)) as [T|e] eqn:HT; simpl.
  - unfold map_at. destruct (Result_Impl.m_rows i !! Result_Impl.m_pos i);
      simpl; [|done].
    destruct (_ !! cursor_col_count cursor); [|done].
    simpl. unfold Result_Impl.value_text.
    destruct T; simpl; try done.
    unfold bytes_but_last. destruct (Buffer.data _) as [|b0 l]; [done|].
    simpl. destruct (Result_Impl.c_str _) as [txt|e] eqn:Htxt; [done|].
    apply c_str_Throw in Htxt as [what ->]. done.
  - intros [= ->]. by eapply Hext.
Qed.

(** ** Result facts *)

(** C4, as the code has it.  The three queries test the reply pointer and
    nothing else: they fail with the empty-result error exactly when the
    reply object is absent, and with a reply they return what the reply
    answers, whether or not a result has been prepared ([m_inited]). *)
Theorem getters_fail_iff_no_reply (s : Result_impl_base.t) :
  ((∃ e, Result_impl_base.get_affected_rows s = Throw e) ↔
   Result_impl_base.m_reply s = None) ∧
  ((∃ e, Result_impl_base.get_auto_increment s = Throw e) ↔
   Result_impl_base.m_reply s = None) ∧
  ((∃ e, fst (Result_impl_base.get_warning_count s) = Throw e) ↔
   Result_impl_base.m_reply s = None) ∧
  match Result_impl_base.m_reply s with
  | None =>
      Result_impl_base.get_affected_rows s =
        Throw (Error "Attempt to get affected rows count on empty result") ∧
      Result_impl_base.get_auto_increment s =
        Throw (Error "Attempt to get auto increment value on empty result") ∧
      fst (Result_impl_base.get_warning_count s) =
        Throw (Error "Attempt to get warning count for empty result")
  | Some r =>
      Result_impl_base.get_affected_rows s = Ok (reply_affected_rows r) ∧
      Result_impl_base.get_auto_increment s = Ok (reply_last_insert_id r) ∧
      fst (Result_impl_base.get_warning_count s) =
        Ok (reply_entry_count r WARNING)
  end.
Proof.
  unfold Result_impl_base.get_affected_rows,
    Result_impl_base.get_auto_increment, Result_impl_base.get_warning_count.
  destruct (Result_impl_base.m_reply s) as [r|]; simpl.
  - repeat split; try done; by intros [e ?].
  - repeat split; try done; intros _; by eexists.
Qed.

(** ** The row cache *)

Lemma process_cursor ev (s : Result_impl_base.t) :
  Result_impl_base.m_cursor (Result_impl_base.process ev s) =
    Result_impl_base.m_cursor s.
Proof.
  destruct ev; simpl; try done.
  - unfold Result_impl_base.row_end. by case_match.
  - unfold Result_impl_base.field_data. by case_match.
Qed.

Lemma process_cache_size ev (s : Result_impl_base.t) :
  Result_impl_base.cache_size_ok s →
  Result_impl_base.cache_size_ok (Result_impl_base.process ev s).
Proof.
  unfold Result_impl_base.cache_size_ok. intros Hs. destruct ev; simpl; try done.
  - unfold Result_impl_base.row_end. case_match; [|done]. simpl.
    rewrite Hs, length_app. simpl.
    rewrite N.Div0.add_mod_idemp_l. f_equal. lia.
  - unfold Result_impl_base.field_data. by case_match.
Qed.

Lemma ingest_inv prefetch evs : ∀ (s : Result_impl_base.t),
  Result_impl_base.m_cursor (snd (Result_impl_base.ingest prefetch evs s)) =
    Result_impl_base.m_cursor s ∧
  (Result_impl_base.cache_size_ok s →
   Result_impl_base.cache_size_ok (snd (Result_impl_base.ingest prefetch evs s))).
Proof.
  induction evs as [|ev evs IH]; intros s; simpl; [done|].
  case_decide; [done|].
  destruct (IH (Result_impl_base.process ev s)) as [Hc Hs].
  rewrite Hc, process_cursor. split; [done|].
  intros Hok. by apply Hs, process_cache_size.
Qed.

(** An unbounded ingest delivers the whole stream. *)
Lemma ingest_unbounded evs : ∀ (s : Result_impl_base.t),
  fst (Result_impl_base.ingest 0 evs s) = [].
Proof.
  induction evs as [|ev evs IH]; intros s; simpl; [done|]. apply IH.
Qed.


(** After [store] the transport has nothing left to deliver, unless rows
    were already cached when it was called. *)
Lemma store_drains (s : Result_impl_base.t) c :
  Result_impl_base.m_row_cache s = [] →
  Result_impl_base.m_cursor (Result_impl_base.store s) = Some c →
  Result_impl_base.m_cursor s ≠ None ∧ cursor_rows c = [].
Proof.
  unfold Result_impl_base.store, Result_impl_base.load_cache. intros ->.
  destruct (Result_impl_base.m_cursor s) as [c0|] eqn:Hc; [|simpl; congruence].
  pose proof (ingest_inv 0 (cursor_rows c0) s) as [Hc' _].
  pose proof (ingest_unbounded (cursor_rows c0) s) as Hrest.
  destruct (Result_impl_base.ingest 0 (cursor_rows c0) s) as [rest s'].
  simpl in *. subst rest. rewrite Hc', Hc. by intros [= <-].
Qed.





(** ** Result::Impl: preparing and tearing down *)

(** C7.  When the reply reports at least one error entry, [init] only
    waits for the reply and returns: the object keeps its reply, acquires
    no cursor and reads no rows, and nothing is raised.  A result so
    constructed has no cursor and no rows. *)
Theorem init_with_error_entries (i : Result_Impl.t) r guid pos0 :
  0 < reply_entry_count r ERROR →
  (Result_Impl.m_reply i = Some r → Result_Impl.init i = (i, [Reply_wait])) ∧
  Result_Impl.Impl (Some r) guid pos0 =
    (Result_Impl.mk (Some r) None ∅ pos0 guid, [Reply_wait]) ∧
  (∀ pos, Result_Impl.get_row pos (fst (Result_Impl.Impl (Some r) guid pos0))
          = None).
Proof.
  intros Herr. unfold Result_Impl.Impl, Result_Impl.init. simpl.
  rewrite decide_True by done. split; [|done].
  intros ->. by rewrite decide_True.
Qed.

(** C6.  [~Impl] deletes the reply first and the cursor second. *)
Theorem dtor_deletes_reply_first (i : Result_Impl.t) r c :
  Result_Impl.m_reply i = Some r → Result_Impl.m_cursor i = Some c →
  Result_Impl.dtor i = [Delete_reply; Delete_cursor] ∧
  Result_Impl.Result_dtor true i = [Delete_reply; Delete_cursor].
Proof.
  intros Hr Hc. unfold Result_Impl.Result_dtor, Result_Impl.dtor.
  by rewrite Hr, Hc.
Qed.

(** ** Typed rows over the meta-data of a result *)

Lemma Meta_data_lookup md (m : Meta_data.t) pos :
  Meta_data.Meta_data md = Ok m → pos < Meta_data.col_count m →
  ∃ col, Meta_data.get_column m pos = Ok col ∧
         Meta_data.get_format m pos = Ok (Column_info.base col) ∧
         Meta_data.column_ok md pos col.
Proof.
  intros Hm Hpos.
  destruct (get_column_range md m pos Hm) as [_ Hin].
  destruct (Hin Hpos) as [col Hcol]. exists col. split; [done|].
  split; [|by eapply Meta_data_columns].
  unfold Meta_data.get_format. unfold Meta_data.get_column in Hcol.
  by rewrite Hcol.
Qed.

(** X4.  Every column the constructor stores has the wire type the cursor
    reports for its position and is padded exactly for BYTES with a
    positive pad width. *)
Theorem Meta_data_padded_columns md (m : Meta_data.t) pos :
  Meta_data.Meta_data md = Ok m → pos < Meta_data.col_count m →
  ∃ col, Meta_data.get_column m pos = Ok col ∧
         Column_info.m_type col = Meta_data.cdk_type md pos ∧
         (Column_info.m_padded col = true ↔
          Meta_data.cdk_type md pos = TYPE_BYTES ∧
          0 < pad_width (Meta_data.cdk_format md pos)).
Proof.
  intros Hm Hpos.
  destruct (Meta_data_lookup md m pos Hm Hpos) as (col & Hcol & _ & _ & Hty & Hp).
  by exists col.
Qed.

(** X1.  A row built on the meta-data of a result decodes a NULL field
    (absent from the raw data, or present with an empty buffer) to the NULL
    value, whatever the wire type of the column, unrecognised types
    included. *)
Theorem typed_row_null_field {VAL : Type} `{!Access VAL}
    md (m : Meta_data.t) (data : Row_data) pos :
  Meta_data.Meta_data md = Ok m → pos < Meta_data.col_count m →
  Row_impl.is_null_field (Row_impl.Row_impl (VAL := VAL) data (Some m)) pos →
  fst (Row_impl.get (Row_impl.Row_impl (VAL := VAL) data (Some m)) pos)
    = Ok VAL_null.
Proof.
  intros Hm Hpos Hnull.
  destruct (Meta_data_lookup md m pos Hm Hpos) as (col & _ & Hfi & _).
  by rewrite (get_null_field _ pos m (Column_info.base col)).
Qed.

(** X2.  For a column of type datetime, bytes, geometry or xml such a row
    decodes a non-NULL field to the raw value holding the buffer without
    its last byte; a field that is the sentinel alone gives the empty,
    non-NULL raw value. *)
Theorem typed_row_raw_field md (m : Meta_data.t) (data : Row_data) pos raw :
  Meta_data.Meta_data md = Ok m → pos < Meta_data.col_count m →
  Meta_data.cdk_type md pos ∈
    [TYPE_DATETIME; TYPE_BYTES; TYPE_GEOMETRY; TYPE_XML] →
  data !! pos = Some raw →
  0 ≠ Buffer.size raw → Buffer.size raw < size_t_max →
  fst (Row_impl.get (Row_impl.Row_impl (VAL := Value.t) data (Some m)) pos) =
    Ok (Value.mk Value.RAW (removelast (Buffer.data raw)) 0%Z) ∧
  (Buffer.size raw = 1 →
   fst (Row_impl.get (Row_impl.Row_impl (VAL := Value.t) data (Some m)) pos) =
     Ok (Value.mk Value.RAW [] 0%Z)).
Proof.
  intros Hm Hpos Hty Hraw Hnn Hlt.
  destruct (Meta_data_lookup md m pos Hm Hpos) as (col & _ & Hfi & Hb & Hty' & _).
  assert (fst (Row_impl.get (Row_impl.Row_impl (VAL := Value.t) data (Some m))
                 pos) =
            Ok (Value.mk Value.RAW (removelast (Buffer.data raw)) 0%Z)) as Hget.
  { apply (get_no_codec_column _ pos m (Column_info.base col) raw); try done.
    unfold Column_info.m_type in Hty'. by rewrite Hty'. }
  split; [done|]. intros Hone. rewrite Hget.
  destruct raw as [[|b [|b' l]]]; unfold Buffer.size, bytes_size in Hone;
    simpl in *; try done; lia.
Qed.

(** X3.  The three lookups of a typed row and its meta-data raise
    [std::out_of_range] at every position from the column count on, and
    the two that do not decode raise nothing below it. *)
Theorem lookups_out_of_range {VAL : Type} `{!Access VAL}
    md (m : Meta_data.t) (data : Row_data) pos :
  Meta_data.Meta_data md = Ok m →
  (Meta_data.col_count m ≤ pos →
   Meta_data.get_column m pos = Throw (std_out_of_range "map::at") ∧
   Row_impl.get_bytes (Row_impl.Row_impl (VAL := VAL) data (Some m)) pos =
     Throw (std_out_of_range "row column") ∧
   fst (Row_impl.get (Row_impl.Row_impl (VAL := VAL) data (Some m)) pos) =
     Throw (std_out_of_range "row column")) ∧
  (pos < Meta_data.col_count m →
   is_Ok (Meta_data.get_column m pos) ∧
   is_Ok (Row_impl.get_bytes (Row_impl.Row_impl (VAL := VAL) data (Some m)) pos)).
Proof.
  intros Hm.
  destruct (get_column_range md m pos Hm) as [Hout Hin].
  destruct (get_bytes_range (Row_impl.Row_impl (VAL := VAL) data (Some m))
              pos m eq_refl) as [Hbout Hbin].
  split; intros Hpos.
  - split; [auto|]. split; [auto|]. by rewrite (get_beyond _ pos m).
  - auto.
Qed.

(** X5.  [getString] raises its range error from [col_count + 1] on, and at
    no position up to [col_count] (unless the cursor itself raises it). *)
Theorem getString_range_error (i : Result_Impl.t) cursor pos :
  Result_Impl.m_cursor i = Some cursor →
  (Result_Impl.getString i pos = Throw (thrown_literal "pos out of range") →
   cursor_col_count cursor < pos ∨
   cursor_type cursor pos = Throw (thrown_literal "pos out of range")) ∧
  (cursor_col_count cursor < pos →
   Result_Impl.getString i pos = Throw (thrown_literal "pos out of range")).
Proof.
  intros Hc. split; [|by apply getString_beyond].
  unfold Result_Impl.getString. rewrite Hc.
  case_decide; [auto|].
  destruct (cursor_type cursor pos) as [T|e] eqn:HT; simpl.
  - unfold map_at. destruct (Result_Impl.m_rows i !! Result_Impl.m_pos i);
      simpl; [|done].
    destruct (_ !! pos); [|done].
    simpl. unfold Result_Impl.value_text.
    destruct T; simpl; try done.
    unfold bytes_but_last. destruct (Buffer.data _) as [|b0 l]; [done|].
    simpl. destruct (Result_Impl.c_str _) as [txt|e] eqn:Htxt; [done|].
    apply c_str_Throw in Htxt as [what ->]. done.
  - intros [= ->]. by right.
Qed.

(** ** What the constructor of Meta_data stores *)

Lemma add_column_unfold md pos (m : Meta_data.t) :
  Meta_data.add_column md pos m =
    Meta_data.add_stored pos (Meta_data.cdk_col_info md pos)
      (initial_column md pos) m.
Proof.
  unfold Meta_data.add_column, initial_column, Meta_data.add, Meta_data.add_raw.
  by destruct (Meta_data.cdk_type md pos).
Qed.

Lemma initial_column_type md pos :
  Column_info.m_type (initial_column md pos) = Meta_data.cdk_type md pos.
Proof. unfold initial_column. by destruct (Meta_data.cdk_type md pos). Qed.

Lemma initial_column_BYTES md pos :
  Meta_data.cdk_type md pos = TYPE_BYTES →
  Column_info.base (initial_column md pos) =
    Format_info.of_descr
      (Format_info.Format_descr_BYTES (Meta_data.cdk_format md pos)).
Proof. unfold initial_column. by intros ->. Qed.

Lemma initial_column_built md pos :
  Format_info.built (Column_info.base (initial_column md pos)).
Proof.
  unfold initial_column.
  destruct (Meta_data.cdk_type md pos); simpl;
    try (left; eexists; reflexivity).
  - left. by exists (Format_info.Format_descr_BYTES (Meta_data.cdk_format md pos)).
  - right. by eexists _, _.
Qed.

(** [store_info] on the constructor's column fails exactly when an
    assertion is compiled in and violated. *)
Lemma store_info_initial md pos :
  match Column_info.store_info (Meta_data.cdk_col_info md pos)
          (initial_column md pos) with
  | Ok _ => NDEBUG = true ∨ assertions_hold md pos
  | Throw e =>
      NDEBUG = false ∧ ¬ assertions_hold md pos ∧ ∃ what, e = assertion_failed what
  end.
Proof.
  unfold Column_info.store_info, assert, assertions_hold.
  set (ci := Meta_data.cdk_col_info md pos).
  destruct NDEBUG eqn:Hnd.
  { rewrite orb_true_r. simpl.
    destruct (Column_info.store_padded _ _) as [p|e] eqn:Hp; simpl; [auto|].
    exfalso. revert Hp. unfold Column_info.store_padded.
    case_decide as Hty; [|done].
    rewrite initial_column_type in Hty. symmetry in Hty.
    rewrite (initial_column_BYTES md pos Hty). simpl.
    case_decide; [|done]. unfold assert. by rewrite Hnd, orb_true_r. }
  rewrite !orb_false_r.
  destruct (ci_decimals ci <? unsigned_short_max) eqn:Hdec; simpl.
  2:{ apply N.ltb_ge in Hdec. split; [done|]. split; [|by eexists].
      intros [? _]. lia. }
  apply N.ltb_lt in Hdec.
  unfold Column_info.store_padded. rewrite initial_column_type.
  case_decide as Hty; simpl.
  2:{ right. split; [done|]. intros Hty'. by rewrite Hty' in Hty. }
  symmetry in Hty. rewrite (initial_column_BYTES md pos Hty). simpl.
  case_decide as Hpad; simpl.
  2:{ right. split; [done|]. intros _ ?. done. }
  unfold assert. rewrite Hnd, orb_false_r.
  destruct (_ =? _) eqn:Hlen; simpl.
  - apply N.eqb_eq in Hlen. right. split; [done|]. by intros _ _.
  - apply N.eqb_neq in Hlen. split; [done|]. split; [|by eexists].
    intros [_ Hl]. by apply Hlen, Hl.
Qed.

(** The loop of the constructor over fresh, distinct positions: each
    position gets [store_info] of its initial column, and a failure is the
    failure of [store_info] at one of the positions. *)
Lemma add_columns_stored md ps : ∀ (m : Meta_data.t),
  NoDup ps → (∀ j, j ∈ ps → Meta_data.m_cols m !! j = None) →
  match Meta_data.add_columns md ps m with
  | Ok m' =>
      Meta_data.m_col_count m' = Meta_data.m_col_count m ∧
      ∀ j, Meta_data.m_cols m' !! j =
           if decide (j ∈ ps)
           then match Column_info.store_info (Meta_data.cdk_col_info md j)
                        (initial_column md j) with
                | Ok c => Some c
                | Throw _ => None
                end
           else Meta_data.m_cols m !! j
  | Throw e =>
      ∃ j, j ∈ ps ∧
           Column_info.store_info (Meta_data.cdk_col_info md j)
             (initial_column md j) = Throw e
  end.
Proof.
  induction ps as [|pos ps IH]; intros m Hnd Hfresh; simpl.
  { split; [done|]. intros j. done. }
  apply NoDup_cons in Hnd as [Hnin Hnd].
  rewrite add_column_unfold. unfold Meta_data.add_stored.
  assert (Meta_data.m_cols m !! pos = None) as Hpos
    by (apply Hfresh, elem_of_cons; auto).
  unfold map_at at 1. rewrite lookup_map_emplace, decide_True, Hpos by done.
  simpl.
  destruct (Column_info.store_info _ (initial_column md pos)) as [c'|e] eqn:Hs;
    simpl.
  2:{ exists pos. split; [apply elem_of_cons; auto|done]. }
  set (m1 := Meta_data.mk _ _).
  specialize (IH m1 Hnd).
  destruct (Meta_data.add_columns md ps m1) as [m'|e].
  - destruct IH as [Hn Hcols].
    { intros j Hj. simpl. rewrite lookup_insert_ne by (intros ->; done).
      rewrite lookup_map_emplace, decide_False by (intros ->; done).
      apply Hfresh, elem_of_cons. auto. }
    split; [done|]. intros j. rewrite Hcols. simpl.
    destruct (decide (j = pos)) as [->|Hne].
    + rewrite (decide_False (P := pos ∈ ps)) by done.
      rewrite (decide_True (P := pos ∈ pos :: ps)) by (apply elem_of_cons; by left).
      by rewrite lookup_insert_eq, Hs.
    + rewrite lookup_insert_ne, lookup_map_emplace by done.
      rewrite (decide_False (P := pos = j)) by done.
      destruct (decide (j ∈ ps)) as [Hin|Hnin'].
      * by rewrite (decide_True (P := j ∈ pos :: ps)) by (apply elem_of_cons; by right).
      * rewrite (decide_False (P := j ∈ pos :: ps)); [done|].
        rewrite elem_of_cons. tauto.
  - destruct IH as (j & Hj & He).
    { intros j Hj. simpl. rewrite lookup_insert_ne by (intros ->; done).
      rewrite lookup_map_emplace, decide_False by (intros ->; done).
      apply Hfresh, elem_of_cons. auto. }
    exists j. split; [apply elem_of_cons; auto|done].
Qed.

Lemma Meta_data_stored md (m : Meta_data.t) pos col :
  Meta_data.Meta_data md = Ok m →
  Meta_data.get_column m pos = Ok col →
  Column_info.store_info (Meta_data.cdk_col_info md pos)
    (initial_column md pos) = Ok col.
Proof.
  unfold Meta_data.Meta_data. intros Hm Hcol. apply map_at_Ok in Hcol.
  pose proof (add_columns_stored md (Meta_data.positions (Meta_data.cdk_col_count md))
                (Meta_data.mk (Meta_data.cdk_col_count md) ∅)
                (NoDup_positions _) (λ j _, lookup_empty j)) as H.
  rewrite Hm in H. destruct H as [_ Hcols]. rewrite Hcols in Hcol.
  case_decide; [|simpl in Hcol; by rewrite lookup_empty in Hcol].
  by destruct (Column_info.store_info _ _); simplify_eq.
Qed.

(** X6.  Every column the constructor stores carries what the cursor
    reports for its position: original name and label, collation, the
    length and the decimals at the width of their members, the names of
    the table when there is one and of its schema when there is one, and
    empty strings otherwise. *)
Theorem Meta_data_column_identity md (m : Meta_data.t) pos col :
  Meta_data.Meta_data md = Ok m →
  Meta_data.get_column m pos = Ok col →
  let ci := Meta_data.cdk_col_info md pos in
  Column_info.m_name col = ci_orig_name ci ∧
  Column_info.m_label col = ci_name ci ∧
  Column_info.m_collation col = ci_collation ci ∧
  Column_info.m_length col = ci_length ci mod unsigned_long_max ∧
  Column_info.m_decimals col = ci_decimals ci mod unsigned_short_max ∧
  (NDEBUG = false → Column_info.m_decimals col = ci_decimals ci) ∧
  match ci_table ci with
  | Some tbl =>
      Column_info.m_table_name col = table_orig_name tbl ∧
      Column_info.m_table_label col = table_name tbl ∧
      Column_info.m_schema_name col =
        match table_schema tbl with
        | Some s => schema_name s
        | None => ""
        end
  | None =>
      Column_info.m_table_name col = "" ∧
      Column_info.m_table_label col = "" ∧
      Column_info.m_schema_name col = ""
  end.
Proof.
  intros Hm Hcol ci. pose proof (Meta_data_stored md m pos col Hm Hcol) as Hs.
  fold ci in Hs. revert Hs. unfold Column_info.store_info.
  intros Hs. apply bind_Ok in Hs as ([] & Hd & Hs).
  apply bind_Ok in Hs as (p & _ & [= <-]). simpl.
  assert (∀ f, Column_info.m_table_name (Column_info.fresh f) = "" ∧
               Column_info.m_table_label (Column_info.fresh f) = "" ∧
               Column_info.m_schema_name (Column_info.fresh f) = "") as Hfresh
    by done.
  assert (∃ f, initial_column md pos = Column_info.fresh f) as [f ->].
  { unfold initial_column, Column_info.of_descr, Column_info.of_raw.
    destruct (Meta_data.cdk_type md pos); by eexists. }
  repeat (split; [done|]). split.
  - intros Hnd. revert Hd. unfold assert. rewrite Hnd, orb_false_r.
    destruct (_ <? _) eqn:Hlt; [|done]. intros _.
    apply N.ltb_lt in Hlt. by rewrite N.mod_small.
  - destruct (ci_table ci) as [tbl|]; [|done].
    by destruct (table_schema tbl).
Qed.

(** X7.  The constructor raises nothing but a failed assertion.  It
    succeeds, with the cursor's column count, when assertions are compiled
    out or hold at every position (decimals within [unsigned short]; for
    BYTES with a positive pad width, declared length equal to it); it
    succeeds only then; and when it fails, the build has assertions and
    one of them is violated at some position. *)
Theorem Meta_data_fails_only_by_assertion md :
  let holds :=
    NDEBUG = true ∨
    ∀ pos, pos < Meta_data.cdk_col_count md → assertions_hold md pos in
  (holds → ∃ m, Meta_data.Meta_data md = Ok m ∧
                Meta_data.col_count m = Meta_data.cdk_col_count md) ∧
  (is_Ok (Meta_data.Meta_data md) → holds) ∧
  (∀ e, Meta_data.Meta_data md = Throw e →
        NDEBUG = false ∧ (∃ what, e = assertion_failed what) ∧
        ∃ pos, pos < Meta_data.cdk_col_count md ∧ ¬ assertions_hold md pos).
Proof.
  intros holds.
  pose proof (add_columns_stored md
                (Meta_data.positions (Meta_data.cdk_col_count md))
                (Meta_data.mk (Meta_data.cdk_col_count md) ∅)
                (NoDup_positions _) (λ j _, lookup_empty j)) as H.
  assert (∀ e, Meta_data.Meta_data md = Throw e →
            NDEBUG = false ∧ (∃ what, e = assertion_failed what) ∧
            ∃ pos, pos < Meta_data.cdk_col_count md ∧ ¬ assertions_hold md pos)
    as Hfail.
  { intros e He. unfold Meta_data.Meta_data in He. rewrite He in H.
    destruct H as (j & Hj & Hs). apply elem_of_positions in Hj.
    pose proof (store_info_initial md j) as Hi. rewrite Hs in Hi.
    destruct Hi as (Hnd & Hna & Hw). split; [done|]. split; [done|].
    by exists j. }
  split; [|split; [|done]].
  - intros Hok. destruct (Meta_data.Meta_data md) as [m|e] eqn:Hm.
    + exists m. split; [done|]. by apply Meta_data_inv in Hm as (? & _).
    + destruct (Hfail e eq_refl) as (Hnd & _ & pos & Hpos & Hna).
      destruct Hok as [Hok|Hok]; [congruence|]. destruct Hna. by apply Hok.
  - intros [m Hm]. unfold holds. destruct NDEBUG eqn:Hnd; [by left|right].
    intros pos Hpos.
    destruct (Meta_data_inv md m Hm) as (Hn & _ & Hdom).
    assert (is_Some (Meta_data.m_cols m !! pos)) as [c Hc]
      by (apply Hdom; lia).
    apply map_at_Ok in Hc.
    pose proof (Meta_data_stored md m pos c Hm Hc) as Hs.
    pose proof (store_info_initial md pos) as Hi. rewrite Hs in Hi.
    destruct Hi as [Hi|Hi]; [congruence|done].
Qed.

Lemma Meta_data_get_in_range md (m : Meta_data.t) pos :
  Meta_data.Meta_data md = Ok m → pos < Meta_data.col_count m →
  Meta_data.get_type m pos = Ok (Meta_data.cdk_type md pos) ∧
  Meta_data.get_format m pos = Ok (Column_info.base (initial_column md pos)).
Proof.
  intros Hm Hpos. destruct (get_column_range md m pos Hm) as [_ Hin].
  unfold Meta_data.get_type, Meta_data.get_format.
  destruct (Hin Hpos) as [col Hcol]. unfold Meta_data.get_column in *.
  rewrite Hcol. simpl.
  pose proof (Meta_data_stored md m pos col Hm Hcol) as Hs.
  apply store_info_base in Hs. rewrite Hs.
  split; [|done]. f_equal. apply initial_column_type.
Qed.

(** X8.  [get_type] and [get_format] of the meta-data answer, for a
    position below the column count, the wire type the cursor reported
    there and the format the constructor built for it; from the column
    count on they raise [std::out_of_range]. *)
Theorem Meta_data_get_type md (m : Meta_data.t) pos :
  Meta_data.Meta_data md = Ok m →
  (pos < Meta_data.col_count m →
   Meta_data.get_type m pos = Ok (Meta_data.cdk_type md pos) ∧
   Meta_data.get_format m pos = Ok (Column_info.base (initial_column md pos))) ∧
  (Meta_data.col_count m ≤ pos →
   Meta_data.get_type m pos = Throw (std_out_of_range "map::at") ∧
   Meta_data.get_format m pos = Throw (std_out_of_range "map::at")).
Proof.
  intros Hm. split; intros Hpos.
  - by apply Meta_data_get_in_range.
  - destruct (get_column_range md m pos Hm) as [Hout _].
    unfold Meta_data.get_type, Meta_data.get_format.
    unfold Meta_data.get_column in *. by rewrite (Hout Hpos).
Qed.

(** ** More on typed and user-defined rows *)

Section more_rows.
Context {VAL : Type} `{!Access VAL}.
Implicit Types r : Row_impl.t (VAL := VAL).

Lemma fresh_row_get md (m : Meta_data.t) (data : Row_data) pos raw :
  Meta_data.Meta_data md = Ok m → pos < Meta_data.col_count m →
  Meta_data.cdk_type md pos ∈ CDK_TYPE_LIST →
  data !! pos = Some raw → 0 ≠ Buffer.size raw →
  fst (Row_impl.get (Row_impl.Row_impl (VAL := VAL) data (Some m)) pos) =
    Access_mk (Buffer.data raw)
      (Format_info.m_fmt (Column_info.base (initial_column md pos))).
Proof.
  intros Hm Hpos Hrec Hraw Hnn.
  destruct (Meta_data_get_in_range md m pos Hm Hpos) as [_ Hfi].
  unfold Row_impl.get, Row_impl.beyond_mdata. simpl.
  rewrite bool_decide_eq_false_2 by lia. rewrite lookup_empty, Hfi.
  pose proof (initial_column_type md pos) as Hty.
  unfold Column_info.m_type in Hty.
  rewrite (convert_at_known _ _ _ raw); try done.
  - destruct (Access_mk _ _) as [v|e]; simpl; [|done].
    unfold map_at. by rewrite lookup_map_emplace, decide_True, lookup_empty.
  - apply initial_column_built.
  - by rewrite Hty.
Qed.

(** X9.  What [get] returns for a non-NULL field of a fresh row over the
    meta-data of a result: for a recognised wire type it is the outcome of
    [VAL::Access::mk] on the whole buffer with the format the constructor
    built for the column, an exception of the conversion included; for an
    unrecognised type it is [std::out_of_range]. *)
Theorem typed_row_get md (m : Meta_data.t) (data : Row_data) pos raw :
  Meta_data.Meta_data md = Ok m → pos < Meta_data.col_count m →
  data !! pos = Some raw → 0 ≠ Buffer.size raw →
  fst (Row_impl.get (Row_impl.Row_impl (VAL := VAL) data (Some m)) pos) =
    if decide (Meta_data.cdk_type md pos ∈ CDK_TYPE_LIST)
    then Access_mk (Buffer.data raw)
           (Format_info.m_fmt (Column_info.base (initial_column md pos)))
    else Throw (std_out_of_range "map::at").
Proof.
  intros Hm Hpos Hraw Hnn.
  case_decide as Hrec; [by apply fresh_row_get|].
  destruct (Meta_data_get_in_range md m pos Hm Hpos) as [_ Hfi].
  unfold Row_impl.get, Row_impl.beyond_mdata. simpl.
  rewrite bool_decide_eq_false_2 by lia. rewrite lookup_empty, Hfi.
  pose proof (initial_column_type md pos) as Hty.
  unfold Column_info.m_type in Hty.
  - destruct (Meta_data.cdk_type md pos) as [| | | | | | | |code] eqn:HT;
      try (exfalso; apply Hrec; unfold CDK_TYPE_LIST;
           rewrite !elem_of_cons; tauto).
    rewrite (convert_at_unrecognised _ _ _ code); try done.
    unfold Row_impl.is_null_field. simpl. by rewrite Hraw.
Qed.

Lemma convert_at_frame pos fi r :
  let r' := snd (Row_impl.convert_at pos fi r) in
  Row_impl.m_col_count r' = Row_impl.m_col_count r ∧
  (∀ j, j ≠ pos → Row_impl.m_vals r' !! j = Row_impl.m_vals r !! j) ∧
  (∀ v, Row_impl.m_vals r !! pos = Some v →
        Row_impl.m_vals r' !! pos = Some v) ∧
  (∀ e, fst (Row_impl.convert_at pos fi r) = Throw e →
        Row_impl.m_vals r' = Row_impl.m_vals r) ∧
  (Row_impl.mk_calls r' ≠ Row_impl.mk_calls r →
   ¬ Row_impl.is_null_field r pos).
Proof.
  unfold Row_impl.convert_at, Row_impl.is_null_field.
  repeat (case_match; simpl; try done);
    repeat split; try done;
    try (intros j Hj; by rewrite lookup_map_emplace, decide_False);
    try (intros w Hw; by rewrite lookup_map_emplace, decide_True, Hw).
Qed.

(** X10.  The frame of [get]: a call leaves the raw data, the meta-data
    and the column count of the row as they are, changes no value stored
    for another position and no value already stored for its own; a call
    that raises stores nothing; and the conversion is only ever called for
    a field that is not NULL. *)
Theorem get_frame r pos :
  let r' := snd (Row_impl.get r pos) in
  Row_impl.m_data r' = Row_impl.m_data r ∧
  Row_impl.m_mdata r' = Row_impl.m_mdata r ∧
  Row_impl.m_col_count r' = Row_impl.m_col_count r ∧
  (∀ j, j ≠ pos → Row_impl.m_vals r' !! j = Row_impl.m_vals r !! j) ∧
  (∀ v, Row_impl.m_vals r !! pos = Some v →
        Row_impl.m_vals r' !! pos = Some v) ∧
  (∀ e, fst (Row_impl.get r pos) = Throw e →
        Row_impl.m_vals r' = Row_impl.m_vals r) ∧
  (Row_impl.mk_calls r' ≠ Row_impl.mk_calls r →
   ¬ Row_impl.is_null_field r pos).
Proof.
  assert (∀ o : result VAL, let r' := snd (o, r) in
            Row_impl.m_data r' = Row_impl.m_data r ∧
            Row_impl.m_mdata r' = Row_impl.m_mdata r ∧
            Row_impl.m_col_count r' = Row_impl.m_col_count r ∧
            (∀ j, j ≠ pos → Row_impl.m_vals r' !! j = Row_impl.m_vals r !! j) ∧
            (∀ v, Row_impl.m_vals r !! pos = Some v →
                  Row_impl.m_vals r' !! pos = Some v) ∧
            (∀ e, fst (o, r) = Throw e →
                  Row_impl.m_vals r' = Row_impl.m_vals r) ∧
            (Row_impl.mk_calls r' ≠ Row_impl.mk_calls r →
             ¬ Row_impl.is_null_field r pos)) as Hsame
    by (intros o; simpl; repeat split; done).
  unfold Row_impl.get. cbv zeta.
  destruct (Row_impl.beyond_mdata r pos); [apply Hsame|].
  destruct (Row_impl.m_vals r !! pos) as [w|] eqn:Hv; [apply Hsame|].
  destruct (Row_impl.m_mdata r) as [md|] eqn:Hmd; [|apply Hsame].
  destruct (Meta_data.get_format md pos) as [fi|]; [|apply Hsame].
  clear Hsame.
  pose proof (convert_at_mdata pos fi r) as [Hm Hd].
  pose proof (convert_at_frame pos fi r) as (Hc & Hother & Hown & Hthrow & Hmk).
  destruct (Row_impl.convert_at pos fi r) as [[[]|e] r'] eqn:Hca; simpl in *.
  - rewrite Hd, Hm, Hmd. repeat split; try done.
    intros e He. apply map_at_Throw_None in He.
    apply map_eq. intros j. destruct (decide (j = pos)) as [->|Hne].
    + by rewrite He, Hv.
    + by apply Hother.
  - rewrite Hd, Hm, Hmd. repeat split; try done. intros e' _. by eapply Hthrow.
Qed.

(** ** User-defined rows *)

Lemma set_vals pos v r :
  Row_impl.m_vals (Row_impl.set pos v r) = map_emplace pos v (Row_impl.m_vals r) ∧
  Row_impl.m_mdata (Row_impl.set pos v r) = Row_impl.m_mdata r ∧
  Row_impl.m_data (Row_impl.set pos v r) = Row_impl.m_data r.
Proof. done. Qed.

Lemma user_get r pos :
  Row_impl.m_mdata r = None →
  Row_impl.get r pos =
    (match Row_impl.m_vals r !! pos with
     | Some v => Ok v
     | None => Throw (std_out_of_range "map::at")
     end, r).
Proof.
  intros Hmd. unfold Row_impl.get, Row_impl.beyond_mdata. rewrite Hmd.
  by destruct (Row_impl.m_vals r !! pos).
Qed.

(** X11.  On a row without meta-data [set] followed by [get] returns the
    value set, unless the position already held a value: [set] does not
    overwrite, and [get] then returns the earlier value.  Other positions
    read as before, and [get] leaves such a row as it is. *)
Theorem user_row_set_get r pos v :
  Row_impl.m_mdata r = None →
  fst (Row_impl.get (Row_impl.set pos v r) pos) =
    Ok (default v (Row_impl.m_vals r !! pos)) ∧
  (∀ j, j ≠ pos →
        fst (Row_impl.get (Row_impl.set pos v r) j) = fst (Row_impl.get r j)) ∧
  (∀ j, snd (Row_impl.get (Row_impl.set pos v r) j) = Row_impl.set pos v r).
Proof.
  intros Hmd.
  assert (Row_impl.m_mdata (Row_impl.set pos v r) = None) as Hmd' by done.
  split; [|split].
  - rewrite user_get by done. simpl.
    by rewrite lookup_map_emplace, decide_True.
  - intros j Hj. rewrite !user_get by done. simpl.
    by rewrite lookup_map_emplace, decide_False.
  - intros j. by rewrite user_get.
Qed.

Lemma set_all_mdata vals : ∀ r,
  Row_impl.m_mdata (set_all vals r) = Row_impl.m_mdata r ∧
  Row_impl.m_data (set_all vals r) = Row_impl.m_data r.
Proof.
  induction vals as [|[p v] vals IH]; intros r; simpl; [done|].
  unfold set_all in *. simpl. by rewrite !(proj1 (IH _)), !(proj2 (IH _)).
Qed.

Lemma set_all_vals vals : ∀ r (j : N),
  Row_impl.m_vals (set_all vals r) !! j =
    match Row_impl.m_vals r !! j with
    | Some v => Some v
    | None => (list_to_map vals : gmap N VAL) !! j
    end.
Proof.
  induction vals as [|[p v] vals IH]; intros r j.
  { simpl. rewrite lookup_empty. by destruct (_ !! j). }
  unfold set_all in *. simpl. rewrite IH. simpl.
  rewrite lookup_map_emplace.
  destruct (decide (p = j)) as [->|Hne].
  - rewrite lookup_insert_eq. by destruct (Row_impl.m_vals r !! j).
  - rewrite lookup_insert_ne by done. done.
Qed.

Lemma set_all_col_count vals : ∀ r,
  (∀ pv, pv ∈ vals → pv.1 + 1 < col_count_t_max) →
  Row_impl.m_col_count (set_all vals r) =
    foldl (λ n pv, N.max n (pv.1 + 1)) (Row_impl.m_col_count r) vals.
Proof.
  induction vals as [|[p v] vals IH]; intros r Hsmall; [done|].
  unfold set_all in *. simpl. rewrite IH.
  2:{ intros pv Hpv. apply Hsmall, elem_of_cons. by right. }
  f_equal. simpl.
  assert (p + 1 < col_count_t_max) as Hp
    by (apply (Hsmall (p, v)), elem_of_cons; by left).
  case_decide; [rewrite N.mod_small by done|]; lia.
Qed.

Lemma foldl_max_ge (vals : list (N * VAL)) : ∀ n0 pv,
  pv ∈ vals → pv.1 < foldl (λ n pv, N.max n (pv.1 + 1)) n0 vals.
Proof.
  assert (∀ (l : list (N * VAL)) n0,
            n0 ≤ foldl (λ n pv, N.max n (pv.1 + 1)) n0 l) as Hmono.
  { induction l as [|a l IH]; intros n0; simpl; [lia|].
    specialize (IH (N.max n0 (a.1 + 1))). lia. }
  induction vals as [|a vals IH]; intros n0 pv Hin.
  { by apply elem_of_nil in Hin. }
  simpl. apply elem_of_cons in Hin as [->|Hin]; [|by apply IH].
  specialize (Hmono vals (N.max n0 (a.1 + 1))). lia.
Qed.

(** X12.  A row built from [Row_impl()] by calls of [set] (positions below
    the largest column count): its column count is one more than the
    largest position set; [get] returns the first value set for a
    position and raises [std::out_of_range] for a position never set, in
    particular for every position from the column count on; [get_bytes]
    raises nothing and returns empty bytes everywhere. *)
Theorem user_row_positions (vals : list (N * VAL)) :
  (∀ pv, pv ∈ vals → pv.1 + 1 < col_count_t_max) →
  let r := set_all vals Row_impl.empty in
  Row_impl.col_count r = foldl (λ n pv, N.max n (pv.1 + 1)) 0 vals ∧
  (∀ pos, fst (Row_impl.get r pos) =
          match (list_to_map vals : gmap N VAL) !! pos with
          | Some v => Ok v
          | None => Throw (std_out_of_range "map::at")
          end) ∧
  (∀ pos, Row_impl.col_count r ≤ pos →
          fst (Row_impl.get r pos) = Throw (std_out_of_range "map::at")) ∧
  (∀ pos, Row_impl.get_bytes r pos = Ok []).
Proof.
  intros Hsmall. cbv zeta.
  destruct (set_all_mdata vals Row_impl.empty) as [Hmd Hdata].
  simpl in Hmd, Hdata.
  assert (Row_impl.col_count (set_all vals Row_impl.empty) =
            foldl (λ n pv, N.max n (pv.1 + 1)) 0 vals) as Hcount.
  { unfold Row_impl.col_count. rewrite Hmd.
    by rewrite (set_all_col_count vals Row_impl.empty Hsmall). }
  assert (∀ pos, fst (Row_impl.get (set_all vals Row_impl.empty) pos) =
            match (list_to_map vals : gmap N VAL) !! pos with
            | Some v => Ok v
            | None => Throw (std_out_of_range "map::at")
            end) as Hget.
  { intros pos. rewrite user_get by done. simpl.
    rewrite set_all_vals. simpl. by rewrite lookup_empty. }
  split; [done|]. split; [done|]. split.
  - intros pos Hpos. rewrite Hget.
    destruct (list_to_map vals !! pos) as [v|] eqn:Hl; [|done].
    apply elem_of_list_to_map_2 in Hl.
    pose proof (foldl_max_ge vals 0 (pos, v) Hl) as Hlt. simpl in Hlt. lia.
  - intros pos. unfold Row_impl.get_bytes, Row_impl.beyond_mdata.
    rewrite Hmd, Hdata. by rewrite lookup_empty.
Qed.

(** X13.  After [clear] every [get] raises [std::out_of_range], every
    [get_bytes] returns empty bytes, and [col_count] answers the count
    the row had without meta-data: [clear] does not reset it. *)
Theorem clear_row r pos :
  let c := Row_impl.clear r in
  Row_impl.get c pos = (Throw (std_out_of_range "map::at"), c) ∧
  Row_impl.get_bytes c pos = Ok [] ∧
  Row_impl.col_count c = Row_impl.m_col_count r ∧
  (∀ v, fst (Row_impl.get (Row_impl.set pos v c) pos) = Ok v).
Proof.
  simpl. split; [|split; [|split]].
  - by rewrite user_get.
  - unfold Row_impl.get_bytes. simpl. by rewrite lookup_empty.
  - done.
  - intros v. rewrite user_get by done. simpl.
    by rewrite lookup_map_emplace, decide_True, lookup_empty.
Qed.

End more_rows.



(** ** Result::Impl: assembling the delivered rows *)

Lemma set_rows_same (i : Result_Impl.t) row rd :
  Result_Impl.m_rows i !! row = Some rd →
  Result_Impl.set_rows (<[row := rd]> (Result_Impl.m_rows i)) i = i.
Proof.
  intros Hrow. unfold Result_Impl.set_rows. rewrite insert_id by done.
  by destruct i.
Qed.

Lemma process_chunks row col chunks : ∀ (i : Result_Impl.t) rd buf,
  Result_Impl.m_pos i = row → row < unsigned_max → col < unsigned_max →
  Result_Impl.m_rows i !! row = Some rd → rd !! col = Some buf →
  foldl (λ i ev, Result_Impl.process ev i) i (Field_data col <$> chunks) =
    Result_Impl.set_rows
      (<[row := <[col := Buffer.mk (Buffer.m_impl buf ++ concat chunks)]> rd]>
         (Result_Impl.m_rows i)) i.
Proof.
  induction chunks as [|c chunks IH]; intros i rd buf Hpos Hrow Hcol Hrd Hbuf.
  { simpl. rewrite app_nil_r. destruct buf as [b]. simpl.
    rewrite (insert_id rd) by done. by rewrite set_rows_same. }
  simpl. unfold Result_Impl.field_data.
  rewrite Hpos, !N.mod_small by done. unfold map_index. rewrite Hrd, Hbuf.
  simpl.
  rewrite (IH _ (<[col := Buffer.append c buf]> rd) (Buffer.append c buf));
    simpl; try done.
  - unfold Result_Impl.set_rows. simpl.
    rewrite !insert_insert_eq. unfold Buffer.append. simpl.
    by rewrite <- app_assoc.
  - by rewrite lookup_insert_eq.
  - by rewrite lookup_insert_eq.
Qed.

Lemma process_field row (f : field_delivery) (i : Result_Impl.t) rd :
  Result_Impl.m_pos i = row → row < unsigned_max → fd_col f < unsigned_max →
  Result_Impl.m_rows i !! row = Some rd → rd !! fd_col f = None →
  foldl (λ i ev, Result_Impl.process ev i) i (field_events f) =
    Result_Impl.set_rows (<[row := add_field rd f]> (Result_Impl.m_rows i)) i.
Proof.
  intros Hpos Hrow Hcol Hrd Hfresh. unfold field_events, add_field.
  destruct (fd_chunks f) as [chunks|]; simpl.
  2:{ by rewrite set_rows_same. }
  rewrite foldl_app. simpl. unfold Result_Impl.field_begin.
  rewrite Hpos. unfold map_index. rewrite Hrd. simpl.
  unfold map_emplace. rewrite Hfresh.
  rewrite (process_chunks row (fd_col f) chunks _
             (<[fd_col f := Buffer.empty]> rd) Buffer.empty); simpl; try done.
  - unfold Result_Impl.set_rows. simpl. by rewrite !insert_insert_eq.
  - by rewrite lookup_insert_eq.
  - by rewrite lookup_insert_eq.
Qed.

Lemma add_field_lookup_ne rd (f : field_delivery) c :
  c ≠ fd_col f → add_field rd f !! c = rd !! c.
Proof.
  intros Hne. unfold add_field. destruct (fd_chunks f); [|done].
  by rewrite lookup_insert_ne.
Qed.

Lemma process_fields row fs : ∀ (i : Result_Impl.t) rd,
  Result_Impl.m_pos i = row → row < unsigned_max →
  (∀ f, f ∈ fs → fd_col f < unsigned_max ∧ rd !! fd_col f = None) →
  NoDup (fd_col <$> fs) →
  Result_Impl.m_rows i !! row = Some rd →
  foldl (λ i ev, Result_Impl.process ev i) i (concat (field_events <$> fs)) =
    Result_Impl.set_rows
      (<[row := foldl add_field rd fs]> (Result_Impl.m_rows i)) i.
Proof.
  induction fs as [|f fs IH]; intros i rd Hpos Hrow Hfs Hnd Hrd.
  { simpl. by rewrite set_rows_same. }
  simpl. rewrite foldl_app.
  destruct (Hfs f) as [Hcol Hfresh]; [apply elem_of_cons; by left|].
  rewrite (process_field row f i rd) by done.
  simpl in Hnd. apply NoDup_cons in Hnd as [Hnin Hnd].
  rewrite (IH _ (add_field rd f)); simpl; try done.
  - unfold Result_Impl.set_rows. simpl. by rewrite insert_insert_eq.
  - intros g Hg. destruct (Hfs g) as [Hgc Hgf]; [apply elem_of_cons; by right|].
    split; [done|]. rewrite add_field_lookup_ne; [done|].
    intros Heq. apply Hnin. rewrite <- Heq. by apply list_elem_of_fmap_2.
  - by rewrite lookup_insert_eq.
Qed.

Lemma delivered_lookup fs : ∀ rd (f : field_delivery),
  NoDup (fd_col <$> fs) → f ∈ fs →
  foldl add_field rd fs !! fd_col f =
    match fd_chunks f with
    | Some chunks => Some (Buffer.mk (concat chunks))
    | None => rd !! fd_col f
    end.
Proof.
  assert (∀ fs rd c, c ∉ fd_col <$> fs → foldl add_field rd fs !! c = rd !! c)
    as Hother.
  { clear. induction fs as [|g fs IH]; intros rd c Hc; [done|].
    simpl. rewrite IH.
    - apply add_field_lookup_ne. intros ->. apply Hc. simpl.
      apply elem_of_cons. by left.
    - intros Hin. apply Hc. simpl. apply elem_of_cons. by right. }
  induction fs as [|g fs IH]; intros rd f Hnd Hin.
  { by apply elem_of_nil in Hin. }
  simpl in *. apply NoDup_cons in Hnd as [Hnin Hnd].
  apply elem_of_cons in Hin as [->|Hin].
  - rewrite Hother by done. unfold add_field.
    destruct (fd_chunks g); [by rewrite lookup_insert_eq|done].
  - rewrite IH by done. destruct (fd_chunks f); [done|].
    apply add_field_lookup_ne. intros Heq. apply Hnin. rewrite <- Heq.
    by apply list_elem_of_fmap_2.
Qed.

(** X14.  The callbacks of one row, delivered to a [Result::Impl] that has
    no row at that position yet: the row is stored as the map that holds,
    for every field that is not NULL, the concatenation of its chunks in
    delivery order, and nothing for a NULL field; [getBytes] then returns
    that concatenation and raises [std::out_of_range] for a NULL field.
    (Row and column positions below 2^32, each column delivered once.) *)
Theorem delivery_assembles (i : Result_Impl.t) row fs :
  row < unsigned_max →
  (∀ f, f ∈ fs → fd_col f < unsigned_max) →
  NoDup (fd_col <$> fs) →
  Result_Impl.m_rows i !! row = None →
  let i' := foldl (λ i ev, Result_Impl.process ev i) i
              (delivery_events row fs) in
  i' = Result_Impl.set_rows (<[row := delivered_row fs]> (Result_Impl.m_rows i))
         (Result_Impl.set_pos row i) ∧
  ∀ f, f ∈ fs →
       Result_Impl.getBytes i' (fd_col f) =
         match fd_chunks f with
         | Some chunks => Ok (concat chunks)
         | None => Throw (std_out_of_range "map::at")
         end.
Proof.
  intros Hrow Hcols Hnd Hfresh.
  assert (foldl (λ i ev, Result_Impl.process ev i) i (delivery_events row fs) =
          Result_Impl.set_rows
            (<[row := delivered_row fs]> (Result_Impl.m_rows i))
            (Result_Impl.set_pos row i)) as Heq.
  { unfold delivery_events. simpl. rewrite foldl_app. simpl.
    unfold map_emplace. rewrite Hfresh.
    rewrite (process_fields row fs _ ∅); simpl; try done.
    - unfold Result_Impl.set_rows. simpl. by rewrite insert_insert_eq.
    - intros f Hf. split; [by apply Hcols|apply lookup_empty].
    - by rewrite lookup_insert_eq. }
  cbv zeta. rewrite Heq. split; [done|].
  intros f Hf. unfold Result_Impl.getBytes. simpl.
  unfold map_at. rewrite lookup_insert_eq. simpl.
  unfold delivered_row. rewrite (delivered_lookup fs ∅ f) by done.
  destruct (fd_chunks f); [done|]. by rewrite lookup_empty.
Qed.

(** X15.  A [Result::Impl] constructed on a reply holds a cursor exactly
    when the reply has no error entry and announces results.  Without a
    cursor it has no rows, and every access to rows or columns is refused:
    [get_row] returns null, [getString] raises "empty row", [getBytes]
    raises [std::out_of_range], the column count raises "No result set".
    With a cursor, the cursor is the reply's, it has been read to the end
    and closed. *)
Theorem Impl_cursor r guid pos0 :
  let i := fst (Result_Impl.Impl (Some r) guid pos0) in
  (is_Some (Result_Impl.m_cursor i) ↔
   reply_entry_count r ERROR = 0 ∧ reply_has_results r = true) ∧
  (Result_Impl.m_cursor i = None →
   Result_Impl.m_rows i = ∅ ∧
   ∀ pos, Result_Impl.get_row pos i = None ∧
          Result_Impl.getString i pos = Throw (thrown_literal "empty row") ∧
          Result_Impl.getBytes i pos = Throw (std_out_of_range "map::at") ∧
          Result_Impl.getColumnCount (Some i) =
            Throw (thrown_literal "No result set")) ∧
  (∀ c, Result_Impl.m_cursor i = Some c →
        c = reply_cursor r ∧
        i = foldl (λ i ev, Result_Impl.process ev i)
              (Result_Impl.mk (Some r) (Some c) ∅ pos0 guid) (cursor_rows c) ∧
        snd (Result_Impl.Impl (Some r) guid pos0) =
          [Reply_wait; Cursor_new; Cursor_wait; Cursor_get_rows; Cursor_wait;
           Cursor_close]).
Proof.
  assert (∀ evs (i : Result_Impl.t),
            Result_Impl.m_cursor
              (foldl (λ i ev, Result_Impl.process ev i) i evs) =
            Result_Impl.m_cursor i) as Hcur.
  { induction evs as [|ev evs IH]; intros i; [done|]. simpl. rewrite IH.
    destruct ev; simpl; try done.
    - unfold Result_Impl.field_begin. by case_match.
    - unfold Result_Impl.field_data. by repeat case_match. }
  unfold Result_Impl.Impl, Result_Impl.init. simpl.
  destruct (decide (0 < reply_entry_count r ERROR)) as [Herr|Herr]; simpl.
  { split; [split; [by intros [? ?]|intros [? _]; lia]|].
    split; [|done]. intros _. split; [done|]. intros pos.
    unfold Result_Impl.getBytes, map_at. simpl. by rewrite lookup_empty. }
  destruct (reply_has_results r) eqn:Hres; simpl.
  - unfold Result_Impl.read_rows. simpl. rewrite Hcur. simpl.
    split; [split; [intros _; split; [lia|done]|by eexists]|].
    split; [done|]. intros c [= <-]. done.
  - split; [split; [by intros [? ?]|by intros [_ ?]]|].
    split; [|done]. intros _. split; [done|]. intros pos.
    unfold Result_Impl.getBytes, map_at. simpl. by rewrite lookup_empty.
Qed.

(** ** getString: the text of a field *)

Lemma unhex_hex2 b rest :
  unhexdump (Result_Impl.hex2 b +:+ rest) =
    (data ← unhexdump rest; Some (b :: data)).
Proof. destruct b; reflexivity. Qed.

Lemma unhexdump_hexdump data : unhexdump (hexdump data) = Some data.
Proof.
  induction data as [|b data IH]; [done|].
  change (hexdump (b :: data)) with (Result_Impl.hex2 b +:+ hexdump data).
  by rewrite unhex_hex2, IH.
Qed.

Lemma hexdump_length data :
  String.length (hexdump data) = (2 * length data)%nat.
Proof.
  induction data as [|b data IH]; [done|].
  change (String.length (hexdump (b :: data)))
    with (S (S (String.length (hexdump data)))).
  rewrite IH. simpl. lia.
Qed.

(** X16.  For a field that is present and whose column is not a string,
    [getString] returns the name of the type followed by the hex dump of
    the whole buffer, sentinel included: two lower-case hex digits per
    byte, from which the buffer can be read back. *)
Theorem getString_hexdump (i : Result_Impl.t) cursor pos T rd b :
  Result_Impl.m_cursor i = Some cursor →
  pos ≤ cursor_col_count cursor →
  cursor_type cursor pos = Ok T → T ≠ TYPE_STRING →
  Result_Impl.m_rows i !! Result_Impl.m_pos i = Some rd →
  rd !! pos = Some b →
  Result_Impl.getString i pos =
    Ok (Result_Impl.TYPE_NAME T +:+ hexdump (Buffer.data b)) ∧
  String.length (hexdump (Buffer.data b)) = (2 * length (Buffer.data b))%nat ∧
  unhexdump (hexdump (Buffer.data b)) = Some (Buffer.data b).
Proof.
  intros Hc Hpos HT Hns Hrow Hfield.
  split; [|split; [apply hexdump_length|apply unhexdump_hexdump]].
  unfold Result_Impl.getString. rewrite Hc, decide_False by lia.
  rewrite HT. simpl. unfold map_at. rewrite Hrow. simpl. rewrite Hfield.
  by destruct T.
Qed.

Lemma c_str_ascii (shown rest : bytes) :
  x00 ∉ shown → (∀ c, c ∈ shown → Byte.to_N c < 128) →
  Result_Impl.c_str shown =
    Ok (string_of_list_ascii (ascii_of_byte <$> shown)) ∧
  Result_Impl.c_str (shown ++ x00 :: rest) =
    Ok (string_of_list_ascii (ascii_of_byte <$> shown)).
Proof.
  induction shown as [|b s IH]; intros Hn Hasc; [done|].
  destruct IH as [IH1 IH2].
  { intros Hin. apply Hn, elem_of_cons. by right. }
  { intros c Hc. apply Hasc, elem_of_cons. by right. }
  assert (Byte.eqb b x00 = false) as Hb.
  { destruct (Byte.eqb b x00) eqn:Hb; [|done].
    apply Byte.byte_dec_bl in Hb. subst b. destruct Hn. apply elem_of_cons.
    by left. }
  assert (Byte.to_N b < 128) as Hlt by (apply Hasc, elem_of_cons; by left).
  simpl. rewrite Hb, IH1, IH2. simpl.
  split; (case_decide; [done|lia]).
Qed.

(** X17.  For a string field that is present, [getString] returns the
    type name and, in double quotes, the bytes before the sentinel up to
    their first NUL byte, all of them when there is none, as the
    characters of the same code.  This is for text below 128: the stream
    is a wide stream, and what it makes of a character from 128 on is
    left to its locale. *)
Theorem getString_string (i : Result_Impl.t) cursor pos rd b s last shown :
  Result_Impl.m_cursor i = Some cursor →
  pos ≤ cursor_col_count cursor →
  cursor_type cursor pos = Ok TYPE_STRING →
  Result_Impl.m_rows i !! Result_Impl.m_pos i = Some rd →
  rd !! pos = Some b → Buffer.data b = s ++ [last] →
  s = shown ∨ (∃ rest, s = shown ++ x00 :: rest) →
  x00 ∉ shown → (∀ c, c ∈ shown → Byte.to_N c < 128) →
  Result_Impl.getString i pos =
    Ok ("STRING: " +:+ Result_Impl.quote +:+
        string_of_list_ascii (ascii_of_byte <$> shown) +:+ Result_Impl.quote).
Proof.
  intros Hc Hpos HT Hrow Hfield Hdata Hshown Hn Hasc.
  assert (Result_Impl.c_str s =
            Ok (string_of_list_ascii (ascii_of_byte <$> shown))) as Htxt.
  { destruct Hshown as [->|[rest ->]]; by apply c_str_ascii. }
  unfold Result_Impl.getString. rewrite Hc, decide_False by lia.
  rewrite HT. simpl. unfold map_at. rewrite Hrow. simpl. rewrite Hfield.
  simpl. rewrite Hdata. unfold bytes_but_last.
  destruct (s ++ [last]) eqn:Hsl; [by destruct s|]. rewrite <- Hsl.
  rewrite removelast_last. simpl. by rewrite Htxt.
Qed.

(** ** Iterating over rows and documents *)

Lemma RowResult_next_step (i : Result_Impl.t) c p :
  Result_Impl.m_cursor i = Some c →
  RowResult.next (RowResult.mk (Some i) p) =
    if decide (p < N.of_nat (size (Result_Impl.m_rows i)))
    then (Ok this, RowResult.mk (Some (Result_Impl.set_pos p i))
                     ((p + 1) mod row_count_t_max))
    else (Ok NULL, RowResult.mk (Some i) ((p + 1) mod row_count_t_max)).
Proof.
  intros Hc. unfold RowResult.next, Result_Impl.get_row. simpl. rewrite Hc.
  destruct (decide (N.of_nat (size (Result_Impl.m_rows i)) ≤ p)).
  - by rewrite decide_False by lia.
  - by rewrite decide_True by lia.
Qed.

(** X18.  [RowResult::next] over a result with a cursor and [n] stored
    rows, from position [p]: the call number [j] returns a row exactly
    when [p + j < n], so the rows come in order and null follows once
    they are used up; the rows themselves are not changed.  Every row
    handed out is the one shared object, which after the calls reads the
    row of the last successful call. *)
Theorem RowResult_next_iterates k : ∀ (i : Result_Impl.t) c p,
  Result_Impl.m_cursor i = Some c →
  p + N.of_nat k < row_count_t_max →
  let n := N.of_nat (size (Result_Impl.m_rows i)) in
  let run := RowResult.next_repeat k (RowResult.mk (Some i) p) in
  fst run =
    (λ j, Ok (if decide (p + N.of_nat j < n) then this else NULL)) <$> seq 0 k ∧
  RowResult.m_pos (snd run) = p + N.of_nat k ∧
  ∃ i', RowResult.m_impl (snd run) = Some i' ∧
        Result_Impl.m_rows i' = Result_Impl.m_rows i ∧
        Result_Impl.m_cursor i' = Result_Impl.m_cursor i ∧
        Result_Impl.m_pos i' =
          if decide (0 < N.of_nat k ∧ p < n)
          then N.min (p + N.of_nat k) n - 1
          else Result_Impl.m_pos i.
Proof.
  induction k as [|k IH]; intros i c p Hc Hk; cbv zeta.
  { simpl. split; [done|]. split; [lia|]. by exists i. }
  cbn [RowResult.next_repeat]. rewrite (RowResult_next_step i c p Hc).
  set (n := N.of_nat (size (Result_Impl.m_rows i))).
  destruct (decide (p < n)) as [Hp|Hp].
  - specialize (IH (Result_Impl.set_pos p i) c (p + 1)).
    rewrite N.mod_small by lia. cbv zeta in IH. simpl in IH.
    fold n in IH.
    destruct (RowResult.next_repeat k _) as [os rr] eqn:Hrun.
    destruct IH as (Hos & Hpos & i' & Hi' & Hrows & Hcur & Hmpos); [done|lia|].
    simpl in *. split.
    { rewrite decide_True by lia. f_equal. rewrite Hos, <- fmap_S_seq, <- list_fmap_compose.
      apply list_fmap_ext. intros _ j _. simpl.
      by replace (p + 1 + N.of_nat j) with (p + N.of_nat (S j)) by lia. }
    split; [lia|]. exists i'. split; [done|]. split; [done|]. split; [done|].
    rewrite Hmpos. rewrite (decide_True (P := 0 < N.of_nat (S k) ∧ p < n)) by lia.
    case_decide; lia.
  - specialize (IH i c (p + 1)).
    rewrite N.mod_small by lia. cbv zeta in IH. fold n in IH.
    destruct (RowResult.next_repeat k _) as [os rr] eqn:Hrun.
    destruct IH as (Hos & Hpos & i' & Hi' & Hrows & Hcur & Hmpos); [done|lia|].
    simpl in *. split.
    { rewrite decide_False by lia. f_equal. rewrite Hos, <- fmap_S_seq, <- list_fmap_compose.
      apply list_fmap_ext. intros _ j _. simpl.
      by replace (p + 1 + N.of_nat j) with (p + N.of_nat (S j)) by lia. }
    split; [lia|]. exists i'. split; [done|]. split; [done|]. split; [done|].
    rewrite Hmpos. rewrite (decide_False (P := 0 < N.of_nat (S k) ∧ p < n)) by lia.
    by rewrite decide_False by lia.
Qed.

Lemma DocResult_next_back k : ∀ (i : Result_Impl.t) c p row,
  Result_Impl.m_cursor i = Some c →
  p + N.of_nat k < row_count_t_max →
  let n := N.of_nat (size (Result_Impl.m_rows i)) in
  ∃ dk, DocResult_Impl.next_repeat k
          (DocResult_Impl.mk (RowResult.mk (Some i) p) row false) =
          Ok ((λ j, if decide (p + N.of_nat j < n) then this else NULL)
                <$> seq 0 k, dk) ∧
        (0 < N.of_nat k → p + N.of_nat k ≤ n →
         DocResult_Impl.current_row dk = Some (p + N.of_nat k - 1)) ∧
        (0 < N.of_nat k → n < p + N.of_nat k →
         DocResult_Impl.m_row dk = NULL).
Proof.
  induction k as [|k IH]; intros i c p row Hc Hk; cbv zeta.
  { eexists. split; [done|]. split; intros; lia. }
  set (n := N.of_nat (size (Result_Impl.m_rows i))).
  cbn [DocResult_Impl.next_repeat]. unfold DocResult_Impl.next at 1.
  unfold DocResult_Impl.next_row. cbn [DocResult_Impl.m_at_front DocResult_Impl.base].
  rewrite (RowResult_next_step i c p Hc). fold n.
  rewrite N.mod_small by lia.
  destruct (decide (p < n)) as [Hp|Hp]; simpl.
  - destruct (IH (Result_Impl.set_pos p i) c (p + 1) this) as (dk & Hrun & Hcur & Hnull);
      [done|lia|].
    simpl in Hrun, Hcur, Hnull. fold n in Hrun, Hcur, Hnull. rewrite Hrun. simpl.
    exists dk. split.
    { do 2 f_equal. rewrite decide_True by lia. f_equal.
      rewrite <- fmap_S_seq, <- list_fmap_compose.
      apply list_fmap_ext. intros _ j _. simpl.
      by replace (p + 1 + N.of_nat j) with (p + N.of_nat (S j)) by lia. }
    destruct k as [|k'].
    + simpl in Hrun. injection Hrun as <-. split.
      * intros _ _. unfold DocResult_Impl.current_row. simpl. f_equal. lia.
      * intros _ ?. lia.
    + split.
      * intros _ Hle. rewrite Hcur by lia. f_equal. lia.
      * intros _ Hgt. apply Hnull; lia.
  - destruct (IH i c (p + 1) NULL) as (dk & Hrun & Hcur & Hnull); [done|lia|].
    simpl in Hrun, Hcur, Hnull. fold n in Hrun, Hcur, Hnull. rewrite Hrun. simpl.
    exists dk. split.
    { do 2 f_equal. rewrite decide_False by lia. f_equal.
      rewrite <- fmap_S_seq, <- list_fmap_compose.
      apply list_fmap_ext. intros _ j _. simpl.
      by replace (p + 1 + N.of_nat j) with (p + N.of_nat (S j)) by lia. }
    destruct k as [|k'].
    + simpl in Hrun. injection Hrun as <-. split; [intros; lia|done].
    + split; [intros; lia|]. intros _ _. apply Hnull; lia.
Qed.

(** X19.  A [DocResult::Impl] built on a result with a cursor and [n]
    stored rows, its row position at 0: the document shown by [first] is
    row 0; the call number [k] of [next] (counting from 1) returns a
    document exactly when [k ≤ n], and it is row [k - 1], so the first
    [next] returns the document [first] shows; once the rows are used up
    [next] returns null.  With no rows there is no document and [print]
    raises "No documents". *)
Theorem DocResult_next_iterates (i : Result_Impl.t) c k :
  Result_Impl.m_cursor i = Some c →
  N.of_nat k + 1 < row_count_t_max →
  let n := N.of_nat (size (Result_Impl.m_rows i)) in
  ∃ d, DocResult_Impl.Impl (RowResult.mk (Some i) 0) = Ok d ∧
       DocResult_Impl.current_row d = (if decide (0 < n) then Some 0 else None) ∧
       (n = 0 → DocResult_Impl.print_input d = Throw (thrown_literal "No documents")) ∧
       ∃ dk, DocResult_Impl.next_repeat k d =
               Ok ((λ j, if decide (N.of_nat j < n) then this else NULL)
                     <$> seq 0 k, dk) ∧
             (0 < N.of_nat k → N.of_nat k ≤ n →
              DocResult_Impl.current_row dk = Some (N.of_nat k - 1)) ∧
             (0 < N.of_nat k → n < N.of_nat k →
              DocResult_Impl.m_row dk = NULL).
Proof.
  intros Hc Hk. cbv zeta.
  set (n := N.of_nat (size (Result_Impl.m_rows i))).
  unfold DocResult_Impl.Impl. rewrite (RowResult_next_step i c 0 Hc). fold n.
  rewrite N.mod_small by (unfold row_count_t_max in *; lia).
  destruct (decide (0 < n)) as [Hn|Hn]; simpl.
  - eexists. split; [done|]. split; [done|]. split; [lia|].
    destruct k as [|k]; [eexists; split; [done|split; intros; lia]|].
    cbn [DocResult_Impl.next_repeat]. unfold DocResult_Impl.next at 1.
    unfold DocResult_Impl.next_row. simpl.
    destruct (DocResult_next_back k (Result_Impl.set_pos 0 i) c 1 this)
      as (dk & Hrun & Hcur & Hnull); [done|lia|].
    simpl in Hrun, Hcur, Hnull. fold n in Hrun, Hcur, Hnull.
    change (0 + 1) with 1. rewrite Hrun. simpl.
    exists dk. split.
    { do 2 f_equal. rewrite decide_True by done. f_equal.
      rewrite <- fmap_S_seq, <- list_fmap_compose.
      apply list_fmap_ext. intros _ j _. simpl.
      by replace (1 + N.of_nat j) with (N.of_nat (S j)) by lia. }
    destruct k as [|k'].
    + simpl in Hrun. injection Hrun as <-. split; [done|intros; lia].
    + split.
      * intros _ Hle. rewrite Hcur by lia. f_equal. lia.
      * intros _ Hgt. apply Hnull; lia.
  - eexists. split; [done|]. split; [done|]. split; [done|].
    destruct k as [|k]; [eexists; split; [done|split; intros; lia]|].
    cbn [DocResult_Impl.next_repeat]. unfold DocResult_Impl.next at 1.
    unfold DocResult_Impl.next_row. simpl.
    destruct (DocResult_next_back k i c 1 NULL)
      as (dk & Hrun & Hcur & Hnull); [done|lia|].
    simpl in Hrun, Hcur, Hnull. fold n in Hrun, Hcur, Hnull.
    change (0 + 1) with 1. rewrite Hrun. simpl.
    exists dk. split.
    { do 2 f_equal. rewrite decide_False by done. f_equal.
      rewrite <- fmap_S_seq, <- list_fmap_compose.
      apply list_fmap_ext. intros _ j _. simpl.
      by replace (1 + N.of_nat j) with (N.of_nat (S j)) by lia. }
    destruct k as [|k'].
    + simpl in Hrun. injection Hrun as <-. split; [intros; lia|done].
    + split; [intros; lia|]. intros _ _. apply Hnull; lia.
Qed.

(** ** The result object and its columns *)

(** X20.  [Result_impl::get_column] raises "No result set" when the result
    has no cursor or no meta-data; otherwise, with the meta-data the
    constructor built, it returns for a position below the column count a
    column of the wire type the cursor reported there, and raises
    [std::out_of_range] from the column count on. *)
Theorem result_get_column (s : Result_impl_base.t) md (m : Meta_data.t) pos :
  Meta_data.Meta_data md = Ok m →
  Result_impl_base.m_mdata s = Some m →
  (Result_impl_base.m_cursor s = None →
   Result_impl_base.get_column s pos = Throw (Error "No result set") ∧
   Result_impl_base.get_col_count s = Throw (Error "No result set")) ∧
  (is_Some (Result_impl_base.m_cursor s) →
   (pos < Meta_data.col_count m →
    ∃ col, Result_impl_base.get_column s pos = Ok col ∧
           Column_info.m_type col = Meta_data.cdk_type md pos) ∧
   (Meta_data.col_count m ≤ pos →
    Result_impl_base.get_column s pos = Throw (std_out_of_range "map::at"))).
Proof.
  intros Hm Hmd. unfold Result_impl_base.get_column, Result_impl_base.get_col_count.
  rewrite Hmd. split.
  - by intros ->.
  - intros [c ->]. split; intros Hpos.
    + destruct (Meta_data_lookup md m pos Hm Hpos) as (col & Hcol & _ & _ & Hty & _).
      by exists col.
    + by apply (get_column_range md m pos Hm).
Qed.

Lemma process_guid evs : ∀ (i : Result_Impl.t),
  Result_Impl.m_guid (foldl (λ i ev, Result_Impl.process ev i) i evs) =
    Result_Impl.m_guid i ∧
  Result_Impl.m_reply (foldl (λ i ev, Result_Impl.process ev i) i evs) =
    Result_Impl.m_reply i.
Proof.
  induction evs as [|ev evs IH]; intros i; [done|]. simpl.
  destruct (IH (Result_Impl.process ev i)) as [-> ->].
  destruct ev; simpl; try done.
  - unfold Result_Impl.field_begin. by case_match.
  - unfold Result_Impl.field_data. by repeat case_match.
Qed.

(** X21.  Constructing a result keeps the reply and the document id it was
    given, whatever rows are read: [getLastDocumentId] returns the id
    passed to the constructor, and it raises "Empty result" only when
    there is no implementation object. *)
Theorem Impl_keeps_guid r guid pos0 :
  let i := fst (Result_Impl.Impl r guid pos0) in
  getLastDocumentId (Some i) = Ok guid ∧
  Result_Impl.m_reply i = r ∧
  getLastDocumentId None = Throw (thrown_literal "Empty result").
Proof.
  unfold Result_Impl.Impl, Result_Impl.init, getLastDocumentId. simpl.
  destruct r as [r|]; [|done].
  case_decide; [done|]. destruct (reply_has_results r); [|done].
  unfold Result_Impl.read_rows. simpl.
  match goal with
  | |- context [foldl _ ?i ?evs] => by destruct (process_guid evs i) as [-> ->]
  end.
Qed.

End properties.

(** * The statements at concrete inputs *)

#[local] Existing Instance Examples.cdk.

(** A closed hypothesis is decided by evaluating both sides. *)
Ltac evaluate := vm_compute; first [reflexivity | discriminate].

(** C1 at the column of the unrecognised type 99 and the buffer "A\0". *)
Lemma convert_without_codec_witness :
  let fd := Format_info.m_fmt (Column_info.base (Examples.column 3)) in
  convert (cdk := Examples.cdk) [x41; x00] fd =
    Ok (Value.mk Value.RAW (removelast [x41; x00]) 0%Z) ∧
  Value_Access_mk (cdk := Examples.cdk) [x41; x00] fd =
    Ok (Value.mk Value.RAW (removelast [x41; x00]) 0%Z) ∧
  bytes_size (removelast [x41; x00]) = bytes_size [x41; x00] - 1.
Proof.
  apply (convert_without_codec (cdk := Examples.cdk)
           Examples.md Examples.mdata 3 (Examples.column 3) [x41; x00]).
  - evaluate.
  - evaluate.
  - reflexivity.
  - evaluate.
  - evaluate.
Defined.


(** In a row with empty fields the BYTES field decodes to the empty raw
    value and an absent field to NULL. *)
Example get_empty_fields :
  fst (Row_impl.get Examples.empty_fields 4) = Ok (Value.mk Value.RAW [] 0%Z) ∧
  fst (Row_impl.get Examples.empty_fields 2) = Ok Value.null ∧
  fst (Row_impl.get Examples.empty_fields 0) = Ok Value.null.
Proof. vm_compute. done. Qed.

(** C3 at five columns and position 5, with a cursor that answers [type]
    there. *)
Lemma getString_at_col_count_witness :
  Result_Impl.getString (Examples.impl Examples.lenient_reply) 5 =
    Ok (Result_Impl.TYPE_NAME TYPE_BYTES +:+ "<null>").
Proof.
  apply (getString_at_col_count (Examples.impl Examples.lenient_reply)
           Examples.lenient_cursor TYPE_BYTES Examples.row_data).
  - evaluate.
  - evaluate.
  - evaluate.
  - evaluate.
Defined.

(** With the cursor that refuses [type] beyond its columns the call fails
    inside CDK, and still not with the range error of [getString]. *)
Example getString_positions :
  Result_Impl.getString (Examples.impl Examples.reply) 4 = Ok "BYTES: 00" ∧
  Result_Impl.getString (Examples.impl Examples.reply) 5 =
    Throw (external_error "no meta-data for the column") ∧
  Result_Impl.getString (Examples.impl Examples.reply) 6 =
    Throw (thrown_literal "pos out of range").
Proof. vm_compute. done. Qed.

(** C4 refuted as stated: on a result object just constructed, before any
    [next_result], the three queries return the reply's answers. *)
Lemma getters_before_next_result :
  Result_impl_base.m_inited Examples.unprepared = false ∧
  Result_impl_base.get_affected_rows Examples.unprepared = Ok 1 ∧
  Result_impl_base.get_auto_increment Examples.unprepared = Ok 7 ∧
  fst (Result_impl_base.get_warning_count Examples.unprepared) = Ok 1 ∧
  ¬ (∀ s : Result_impl_base.t,
       Result_impl_base.m_inited s = false →
       ∃ e, Result_impl_base.get_affected_rows s = Throw e).
Proof.
  repeat split; try (vm_compute; reflexivity).
  intros H. destruct (H Examples.unprepared eq_refl) as [e He].
  vm_compute in He. discriminate He.
Qed.



(** Both ingests assemble the delivered callbacks into the same raw row. *)
Example ingest_assembles :
  Result_Impl.m_rows (Examples.impl Examples.reply) = {[0 := Examples.row_data]} ∧
  Result_impl_base.m_row_cache (Result_impl_base.store Examples.prepared) =
    [Examples.row_data].
Proof. split; vm_compute; reflexivity. Qed.

Example count_prepared :
  fst (Result_impl_base.count Examples.prepared) = 1 ∧
  Result_impl_base.m_row_cache (Result_impl_base.store Examples.prepared) =
    [Examples.row_data] ∧
  Result_impl_base.has_data (Result_impl_base.store Examples.prepared) = true.
Proof. vm_compute. done. Qed.

(** C6 at a result built on a reply with rows. *)
Lemma dtor_deletes_reply_first_witness :
  Result_Impl.dtor (Examples.impl Examples.reply) =
    [Delete_reply; Delete_cursor] ∧
  Result_Impl.Result_dtor true (Examples.impl Examples.reply) =
    [Delete_reply; Delete_cursor].
Proof.
  apply (dtor_deletes_reply_first (Examples.impl Examples.reply)
           Examples.reply Examples.cursor).
  - evaluate.
  - evaluate.
Defined.

Example lifecycle_trace :
  snd (Result_Impl.Impl (Some Examples.reply) [] 0) ++
  Result_Impl.dtor (Examples.impl Examples.reply) =
    [Reply_wait; Cursor_new; Cursor_wait; Cursor_get_rows; Cursor_wait;
     Cursor_close; Delete_reply; Delete_cursor].
Proof. vm_compute. reflexivity. Qed.

(** C7 at a reply with one error entry. *)
Lemma init_with_error_entries_witness :
  let i := Result_Impl.mk (Some Examples.failed_reply) None ∅ 0 [] in
  (Result_Impl.m_reply i = Some Examples.failed_reply →
   Result_Impl.init i = (i, [Reply_wait])) ∧
  Result_Impl.Impl (Some Examples.failed_reply) [] 0 =
    (Result_Impl.mk (Some Examples.failed_reply) None ∅ 0 [], [Reply_wait]) ∧
  (∀ pos, Result_Impl.get_row pos
            (fst (Result_Impl.Impl (Some Examples.failed_reply) [] 0)) = None).
Proof.
  apply (init_with_error_entries
           (Result_Impl.mk (Some Examples.failed_reply) None ∅ 0 [])
           Examples.failed_reply [] 0).
  evaluate.
Defined.



Example get_twice :
  let r1 := snd (Row_impl.get Examples.row 1) in
  Row_impl.mk_calls r1 = [1] ∧
  Row_impl.get r1 1 = (Ok (Value.mk Value.RAW [x01; x02; x03; x04] 0%Z), r1).
Proof. vm_compute. done. Qed.

(** C9 at a BYTES column of pad width 4 and declared length 4. *)
Lemma store_info_padded_witness :
  let c := Column_info.of_raw (cdk := Examples.cdk) TYPE_BYTES 4 in
  let ci := Examples.col_info "c" 4 in
  (∀ fi, Column_info.base c =
           Format_info.of_descr (Format_info.Format_descr_BYTES fi) →
         0 < pad_width fi →
         ci_length ci mod unsigned_long_max = pad_width fi →
         Column_info.store_info ci c ≠
           Throw (assertion_failed "m_length == pad_width") ∧
         (ci_decimals ci < unsigned_short_max →
          ∃ c', Column_info.store_info ci c = Ok c' ∧
                Column_info.m_padded c' = true)) ∧
  (∀ c', Column_info.store_info ci c = Ok c' →
         (Column_info.m_padded c' = true ↔
          Column_info.m_type c = TYPE_BYTES ∧
          ∃ fi, Format_info.m_fmt (Column_info.base c) =
                  Format_info.Format_descr_BYTES fi ∧ 0 < pad_width fi)).
Proof.
  apply (store_info_padded (cdk := Examples.cdk) (Examples.col_info "c" 4)
           (Column_info.of_raw (cdk := Examples.cdk) TYPE_BYTES 4)).
  - left. exists (Format_info.Format_descr_BYTES (cdk := Examples.cdk) 4).
    reflexivity.
  - reflexivity.
Defined.

Example Meta_data_padded :
  Column_info.m_padded (Examples.column 1) = true ∧
  Column_info.m_padded (Examples.column 4) = false ∧
  Column_info.m_padded (Examples.column 3) = false ∧
  Column_info.m_padded (Examples.column 0) = false.
Proof. vm_compute. done. Qed.

(** C10 at the NULL field of the example row. *)
Lemma get_bytes_empty_is_null_witness :
  let r := Examples.row in
  (Row_impl.m_data r !! 2 = None → Row_impl.get_bytes r 2 = Ok []) ∧
  (Row_impl.get_bytes r 2 = Ok [] ↔ Row_impl.is_null_field r 2) ∧
  (Row_impl.get_bytes r 2 = Ok [] → Row_impl.m_vals r !! 2 = None →
   fst (Row_impl.get r 2) = Ok VAL_null) ∧
  (¬ Row_impl.is_null_field r 2 →
   ∃ b, Row_impl.get_bytes r 2 = Ok b ∧ 1 ≤ bytes_size b).
Proof.
  apply (get_bytes_empty_is_null (cdk := Examples.cdk) Examples.row 2
           Examples.mdata (Column_info.base (Examples.column 2))).
  - reflexivity.
  - evaluate.
  - evaluate.
Defined.

(** The columns of the example meta-data: position 1 is padded. *)
Lemma Meta_data_padded_columns_witness :
  ∃ col, Meta_data.get_column Examples.mdata 1 = Ok col ∧
         Column_info.m_type col = Meta_data.cdk_type Examples.md 1 ∧
         (Column_info.m_padded col = true ↔
          Meta_data.cdk_type Examples.md 1 = TYPE_BYTES ∧
          0 < pad_width (Meta_data.cdk_format Examples.md 1)).
Proof.
  apply (Meta_data_padded_columns (cdk := Examples.cdk) Examples.md).
  - evaluate.
  - evaluate.
Defined.

(** The NULL datetime field of the example row. *)
Lemma typed_row_null_field_witness :
  fst (Row_impl.get
         (Row_impl.Row_impl (VAL := Value.t) Examples.row_data
            (Some Examples.mdata)) 2) = Ok VAL_null.
Proof.
  apply (typed_row_null_field (cdk := Examples.cdk) Examples.md).
  - evaluate.
  - evaluate.
  - vm_compute. exact I.
Defined.

(** The BYTES field of the example row that holds the sentinel alone. *)
Lemma typed_row_raw_field_witness :
  let get4 :=
    fst (Row_impl.get
           (Row_impl.Row_impl (VAL := Value.t) Examples.row_data
              (Some Examples.mdata)) 4) in
  get4 = Ok (Value.mk Value.RAW (removelast (Buffer.data (Buffer.mk [x00]))) 0%Z) ∧
  (Buffer.size (Buffer.mk [x00]) = 1 → get4 = Ok (Value.mk Value.RAW [] 0%Z)).
Proof.
  apply (typed_row_raw_field (cdk := Examples.cdk) Examples.md Examples.mdata
           Examples.row_data 4 (Buffer.mk [x00])).
  - evaluate.
  - evaluate.
  - simpl. rewrite !elem_of_cons. auto.
  - evaluate.
  - evaluate.
  - evaluate.
Defined.

(** Position 5 of the five-column example. *)
Lemma lookups_out_of_range_witness :
  let r := Row_impl.Row_impl (VAL := Value.t) Examples.row_data
             (Some Examples.mdata) in
  (Meta_data.col_count Examples.mdata ≤ 5 →
   Meta_data.get_column Examples.mdata 5 = Throw (std_out_of_range "map::at") ∧
   Row_impl.get_bytes r 5 = Throw (std_out_of_range "row column") ∧
   fst (Row_impl.get r 5) = Throw (std_out_of_range "row column")) ∧
  (5 < Meta_data.col_count Examples.mdata →
   is_Ok (Meta_data.get_column Examples.mdata 5) ∧
   is_Ok (Row_impl.get_bytes r 5)).
Proof.
  apply (lookups_out_of_range (cdk := Examples.cdk) Examples.md).
  evaluate.
Defined.

(** Position 6 of the five-column example. *)
Lemma getString_range_error_witness :
  let i := Examples.impl Examples.reply in
  (Result_Impl.getString i 6 = Throw (thrown_literal "pos out of range") →
   cursor_col_count Examples.cursor < 6 ∨
   cursor_type Examples.cursor 6 = Throw (thrown_literal "pos out of range")) ∧
  (cursor_col_count Examples.cursor < 6 →
   Result_Impl.getString i 6 = Throw (thrown_literal "pos out of range")).
Proof.
  apply (getString_range_error (Examples.impl Examples.reply) Examples.cursor).
  evaluate.
Defined.

(** X6 at the fixed-width column of the example. *)
Lemma Meta_data_column_identity_witness :
  let col := Examples.column 1 in
  let ci := Meta_data.cdk_col_info Examples.md 1 in
  Column_info.m_name col = ci_orig_name ci ∧
  Column_info.m_label col = ci_name ci ∧
  Column_info.m_collation col = ci_collation ci ∧
  Column_info.m_length col = ci_length ci mod unsigned_long_max ∧
  Column_info.m_decimals col = ci_decimals ci mod unsigned_short_max ∧
  (NDEBUG = false → Column_info.m_decimals col = ci_decimals ci) ∧
  match ci_table ci with
  | Some tbl =>
      Column_info.m_table_name col = table_orig_name tbl ∧
      Column_info.m_table_label col = table_name tbl ∧
      Column_info.m_schema_name col =
        match table_schema tbl with
        | Some s => schema_name s
        | None => ""
        end
  | None =>
      Column_info.m_table_name col = "" ∧
      Column_info.m_table_label col = "" ∧
      Column_info.m_schema_name col = ""
  end.
Proof.
  apply (Meta_data_column_identity (cdk := Examples.cdk)
           Examples.md Examples.mdata 1 (Examples.column 1)).
  - evaluate.
  - evaluate.
Defined.

(** X8 at the string column of the example. *)
Lemma Meta_data_get_type_witness :
  (0 < Meta_data.col_count Examples.mdata →
   Meta_data.get_type Examples.mdata 0 = Ok (Meta_data.cdk_type Examples.md 0) ∧
   Meta_data.get_format Examples.mdata 0 =
     Ok (Column_info.base (initial_column Examples.md 0))) ∧
  (Meta_data.col_count Examples.mdata ≤ 0 →
   Meta_data.get_type Examples.mdata 0 = Throw (std_out_of_range "map::at") ∧
   Meta_data.get_format Examples.mdata 0 = Throw (std_out_of_range "map::at")).
Proof.
  apply (Meta_data_get_type (cdk := Examples.cdk) Examples.md).
  evaluate.
Defined.

(** X9 at the string field "ab" of the example row. *)
Lemma typed_row_get_witness :
  fst (Row_impl.get
         (Row_impl.Row_impl (VAL := Value.t) Examples.row_data
            (Some Examples.mdata)) 0) =
    if decide (Meta_data.cdk_type Examples.md 0 ∈ CDK_TYPE_LIST)
    then Access_mk (Buffer.data (Buffer.mk [x61; x62; x00]))
           (Format_info.m_fmt (Column_info.base (initial_column Examples.md 0)))
    else Throw (std_out_of_range "map::at").
Proof.
  apply (typed_row_get (cdk := Examples.cdk) (VAL := Value.t)
           Examples.md Examples.mdata Examples.row_data 0
           (Buffer.mk [x61; x62; x00])).
  - evaluate.
  - evaluate.
  - evaluate.
  - evaluate.
Defined.

(** X11 on a row that already holds a value at position 2. *)
Lemma user_row_set_get_witness :
  let r := Row_impl.set 2 Value.null (Row_impl.empty (VAL := Value.t)) in
  let v := Value.mk Value.RAW [x01] 0%Z in
  fst (Row_impl.get (Row_impl.set 2 v r) 2) =
    Ok (default v (Row_impl.m_vals r !! 2)) ∧
  (∀ j, j ≠ 2 →
        fst (Row_impl.get (Row_impl.set 2 v r) j) = fst (Row_impl.get r j)) ∧
  (∀ j, snd (Row_impl.get (Row_impl.set 2 v r) j) = Row_impl.set 2 v r).
Proof.
  apply (user_row_set_get (cdk := Examples.cdk) (VAL := Value.t)
           (Row_impl.set 2 Value.null Row_impl.empty) 2
           (Value.mk Value.RAW [x01] 0%Z)).
  reflexivity.
Defined.

(** X12 at the three calls of [set] of the example. *)
Lemma user_row_positions_witness :
  let r := set_all Examples.user_vals Row_impl.empty in
  Row_impl.col_count r =
    foldl (λ n pv, N.max n (pv.1 + 1)) 0 Examples.user_vals ∧
  (∀ pos, fst (Row_impl.get r pos) =
          match (list_to_map Examples.user_vals : gmap N Value.t) !! pos with
          | Some v => Ok v
          | None => Throw (std_out_of_range "map::at")
          end) ∧
  (∀ pos, Row_impl.col_count r ≤ pos →
          fst (Row_impl.get r pos) = Throw (std_out_of_range "map::at")) ∧
  (∀ pos, Row_impl.get_bytes r pos = Ok []).
Proof.
  apply (user_row_positions (cdk := Examples.cdk) (VAL := Value.t)
           Examples.user_vals).
  intros pv Hin. unfold Examples.user_vals in Hin.
  repeat (apply elem_of_cons in Hin as [->|Hin]; [evaluate|]).
  by apply elem_of_nil in Hin.
Defined.

(** X14 at the three fields of the example, delivered as row 0 to an
    object that has read nothing. *)
Lemma delivery_assembles_witness :
  let i' := foldl (λ i ev, Result_Impl.process ev i) Examples.blank
              (delivery_events 0 Examples.fields) in
  i' = Result_Impl.set_rows
         (<[0 := delivered_row Examples.fields]>
            (Result_Impl.m_rows Examples.blank))
         (Result_Impl.set_pos 0 Examples.blank) ∧
  ∀ f, f ∈ Examples.fields →
       Result_Impl.getBytes i' (fd_col f) =
         match fd_chunks f with
         | Some chunks => Ok (concat chunks)
         | None => Throw (std_out_of_range "map::at")
         end.
Proof.
  apply (delivery_assembles Examples.blank 0 Examples.fields).
  - evaluate.
  - intros f Hin. unfold Examples.fields in Hin.
    repeat (apply elem_of_cons in Hin as [->|Hin]; [evaluate|]).
    by apply elem_of_nil in Hin.
  - apply (bool_decide_unpack (NoDup (fd_col <$> Examples.fields))).
    vm_compute. exact I.
  - evaluate.
Defined.

(** X16 at the fixed-width bytes of the example row. *)
Lemma getString_hexdump_witness :
  let b := Buffer.mk [x01; x02; x03; x04; x00] in
  Result_Impl.getString (Examples.impl Examples.reply) 1 =
    Ok (Result_Impl.TYPE_NAME TYPE_BYTES +:+ hexdump (Buffer.data b)) ∧
  String.length (hexdump (Buffer.data b)) = (2 * length (Buffer.data b))%nat ∧
  unhexdump (hexdump (Buffer.data b)) = Some (Buffer.data b).
Proof.
  apply (getString_hexdump (Examples.impl Examples.reply) Examples.cursor 1
           TYPE_BYTES Examples.row_data
           (Buffer.mk [x01; x02; x03; x04; x00])).
  - evaluate.
  - evaluate.
  - evaluate.
  - evaluate.
  - evaluate.
  - evaluate.
Defined.

(** X17 at the string "ab" of the example row. *)
Lemma getString_string_witness :
  Result_Impl.getString (Examples.impl Examples.reply) 0 =
    Ok ("STRING: " +:+ Result_Impl.quote +:+
        string_of_list_ascii (ascii_of_byte <$> [x61; x62]) +:+
        Result_Impl.quote).
Proof.
  apply (getString_string (Examples.impl Examples.reply) Examples.cursor 0
           Examples.row_data (Buffer.mk [x61; x62; x00]) [x61; x62] x00
           [x61; x62]).
  - evaluate.
  - evaluate.
  - evaluate.
  - evaluate.
  - evaluate.
  - reflexivity.
  - by left.
  - rewrite !not_elem_of_cons. repeat split; try discriminate.
    apply not_elem_of_nil.
  - intros c Hin.
    repeat (apply elem_of_cons in Hin as [->|Hin]; [evaluate|]).
    by apply elem_of_nil in Hin.
Defined.

(** X18: three calls of [next] on the example result, which has one
    row. *)
Lemma RowResult_next_iterates_witness :
  let i := Examples.impl Examples.reply in
  let n := N.of_nat (size (Result_Impl.m_rows i)) in
  let run := RowResult.next_repeat 3 (RowResult.mk (Some i) 0) in
  fst run =
    (λ j, Ok (if decide (0 + N.of_nat j < n) then this else NULL)) <$> seq 0 3 ∧
  RowResult.m_pos (snd run) = 0 + N.of_nat 3 ∧
  ∃ i', RowResult.m_impl (snd run) = Some i' ∧
        Result_Impl.m_rows i' = Result_Impl.m_rows i ∧
        Result_Impl.m_cursor i' = Result_Impl.m_cursor i ∧
        Result_Impl.m_pos i' =
          if decide (0 < N.of_nat 3 ∧ 0 < n)
          then N.min (0 + N.of_nat 3) n - 1
          else Result_Impl.m_pos i.
Proof.
  apply (RowResult_next_iterates 3 (Examples.impl Examples.reply)
           Examples.cursor 0).
  - evaluate.
  - evaluate.
Defined.

(** X19: two calls of [DocResult::next] on the example result. *)
Lemma DocResult_next_iterates_witness :
  let i := Examples.impl Examples.reply in
  let n := N.of_nat (size (Result_Impl.m_rows i)) in
  ∃ d, DocResult_Impl.Impl (RowResult.mk (Some i) 0) = Ok d ∧
       DocResult_Impl.current_row d = (if decide (0 < n) then Some 0 else None) ∧
       (n = 0 → DocResult_Impl.print_input d = Throw (thrown_literal "No documents")) ∧
       ∃ dk, DocResult_Impl.next_repeat 2 d =
               Ok ((λ j, if decide (N.of_nat j < n) then this else NULL)
                     <$> seq 0 2, dk) ∧
             (0 < N.of_nat 2 → N.of_nat 2 ≤ n →
              DocResult_Impl.current_row dk = Some (N.of_nat 2 - 1)) ∧
             (0 < N.of_nat 2 → n < N.of_nat 2 →
              DocResult_Impl.m_row dk = NULL).
Proof.
  apply (DocResult_next_iterates (Examples.impl Examples.reply)
           Examples.cursor 2).
  - evaluate.
  - evaluate.
Defined.

(** X20 at the prepared result of the example and its fixed-width
    column. *)
Lemma result_get_column_witness :
  let s := Examples.prepared in
  (Result_impl_base.m_cursor s = None →
   Result_impl_base.get_column s 1 = Throw (Error "No result set") ∧
   Result_impl_base.get_col_count s = Throw (Error "No result set")) ∧
  (is_Some (Result_impl_base.m_cursor s) →
   (1 < Meta_data.col_count Examples.mdata →
    ∃ col, Result_impl_base.get_column s 1 = Ok col ∧
           Column_info.m_type col = Meta_data.cdk_type Examples.md 1) ∧
   (Meta_data.col_count Examples.mdata ≤ 1 →
    Result_impl_base.get_column s 1 = Throw (std_out_of_range "map::at"))).
Proof.
  apply (result_get_column (cdk := Examples.cdk) Examples.prepared
           Examples.md Examples.mdata 1).
  - evaluate.
  - reflexivity.
Defined.
